(** * vt_driver: a command-line front end to the VirusTotal private API

    A shallow embedding of [src/vt_driver.py] and the properties its
    specification states about it.

    The script is a dispatcher: it reads an API key from an INI file, builds
    a client of the [virus_total_apis] library and forwards one subcommand to
    it, printing the JSON answer or saving the bytes it got.  Everything the
    script does is an effect, so the embedding is a small monad that threads
    the trace of observable events and stops at [sys.exit] or at an uncaught
    exception.  The libraries the script calls ([json], [configparser],
    [os.path], the API client) are modelled by what they return; the
    interpreter is CPython 3 (3.4 to 3.11: separators of [json.dumps] with
    [indent], optional sub-parsers of [argparse], [SafeConfigParser] still
    present) on a POSIX system. *)

From Stdlib Require Import ZArith String Ascii List DecimalString Lia.
From Stdlib Require Import Sorting.Permutation Sorting.Sorted.
From Stdlib Require DecimalZ DecimalPos.
From stdpp Require Import base option list sorting strings gmap.

Local Open Scope string_scope.

(** ** Characters that Rocq strings cannot spell directly *)

Definition LF : ascii := "010"%char.
Definition DQUOTE : ascii := "034"%char.
Definition BACKSLASH : ascii := "092"%char.
Definition SPACE : ascii := "032"%char.

(** ** [json]: the values [json.dumps] serialises

    A Python [str] is a sequence of code points, here a list of numbers; a
    string of Rocq stands for the [str] of its characters ([str]).  A Python
    [dict] keeps its keys in insertion order and has no two equal keys, so an
    object is an association list in insertion order ([wf_json] below states
    the uniqueness of keys).  A float is carried as the text of its [repr],
    which is what the encoder emits for it. *)

Definition pystr : Type := list N.

Definition str (s : string) : pystr := N_of_ascii <$> list_ascii_of_string s.

#[local] Unset Elimination Schemes.
Inductive json : Type :=
  | JNull
  | JBool (b : bool)
  | JInt (n : Z)
  | JFloat (repr : string)
  | JString (s : pystr)
  | JArray (lst : list json)
  | JObject (dct : list (pystr * json)).
#[local] Set Elimination Schemes.

Module Json.

(** [int.__repr__] *)
Definition intstr (n : Z) : string := NilZero.string_of_int (Z.to_int n).

Definition hex_digit (n : N) : ascii :=
  nth (N.to_nat n) (list_ascii_of_string "0123456789abcdef") "0"%char.

(** ['{0:04x}'.format(n)] for a number below [0x10000] *)
Definition hex4 (n : N) : string :=
  String (hex_digit ((n / 4096) mod 16))
    (String (hex_digit ((n / 256) mod 16))
       (String (hex_digit ((n / 16) mod 16))
          (String (hex_digit (n mod 16)) ""))).

(** ['\\u{0:04x}'.format(n)] *)
Definition u_escape (n : N) : string :=
  String BACKSLASH (String "u" (hex4 n)).

(** the replacement of one character in [py_encode_basestring_ascii]:
    [ESCAPE_ASCII] matches a backslash, a double quote and everything
    outside [' '..'~']; [ESCAPE_DCT] gives the short escapes; the rest is
    [\uXXXX], as a surrogate pair from [0x10000] on. *)
Definition escape_char (c : N) : string :=
  if (c =? 92)%N then String BACKSLASH (String BACKSLASH "")
  else if (c =? 34)%N then String BACKSLASH (String DQUOTE "")
  else if (c =? 8)%N then String BACKSLASH "b"
  else if (c =? 12)%N then String BACKSLASH "f"
  else if (c =? 10)%N then String BACKSLASH "n"
  else if (c =? 13)%N then String BACKSLASH "r"
  else if (c =? 9)%N then String BACKSLASH "t"
  else if ((c <? 32) || (126 <? c))%N then
    if (c <? 65536)%N then u_escape c
    else
      let n := (c - 65536)%N in
      let s1 := N.lor 55296 (N.land (N.shiftr n 10) 1023) in
      let s2 := N.lor 56320 (N.land n 1023) in
      u_escape s1 +:+ u_escape s2
  else String (ascii_of_N c) "".

Fixpoint escape (s : pystr) : string :=
  match s with
  | [] => ""
  | c :: s' => escape_char c +:+ escape s'
  end.

(** [py_encode_basestring_ascii]: the encoder with [ensure_ascii=True] *)
Definition encode_basestring_ascii (s : pystr) : string :=
  String DQUOTE (escape s +:+ String DQUOTE "").

(** [str.__lt__] and [str.__le__]: the order of the first code point that
    differs, a proper prefix coming first *)
Fixpoint compare (a b : pystr) : comparison :=
  match a, b with
  | [], [] => Eq
  | [], _ :: _ => Lt
  | _ :: _, [] => Gt
  | x :: a', y :: b' =>
      match (x ?= y)%N with
      | Eq => compare a' b'
      | Lt => Lt
      | Gt => Gt
      end
  end.

Definition leb (a b : pystr) : bool :=
  match compare a b with Gt => false | _ => true end.

Definition ltb (a b : pystr) : bool :=
  match compare a b with Lt => true | _ => false end.

(** [sorted(items)] on (key, value) pairs whose keys are pairwise different:
    the order is the order of the keys.  A stable insertion sort on the
    key. *)
Fixpoint insert_item {A} (kv : pystr * A) (l : list (pystr * A))
  : list (pystr * A) :=
  match l with
  | [] => [kv]
  | x :: l' => if leb kv.1 x.1 then kv :: l else x :: insert_item kv l'
  end.

Fixpoint sorted_items {A} (l : list (pystr * A)) : list (pystr * A) :=
  match l with
  | [] => []
  | kv :: l' => insert_item kv (sorted_items l')
  end.

(** apply [f] to the value of a member, keep its key *)
Definition on_value {A B} (f : A -> B) (kv : pystr * A) : pystr * B :=
  let (k, v) := kv in (k, f v).

Definition spaces (n : nat) : string := string_of_list_ascii (repeat SPACE n).

(** ['\n' + _indent * _current_indent_level], with [_indent = ' ' * indent];
    nothing when [indent] is [None] *)
Definition newline_indent (indent : option nat) (level : nat) : string :=
  match indent with
  | Some n => String LF (spaces (n * level))
  | None => ""
  end.

(** the default [separators]: [(',', ': ')] with an indent, [(', ', ': ')]
    without *)
Definition item_separator (indent : option nat) : string :=
  match indent with Some _ => "," | None => ", " end.

Definition key_separator : string := ": ".

Definition render_member (kc : pystr * string) : string :=
  encode_basestring_ascii kc.1 +:+ key_separator +:+ kc.2.

(** the text of a container from the texts of its elements, as
    [_iterencode_list] and [_iterencode_dict] lay it out: an empty
    container is its two brackets; otherwise every element goes on a line
    of its own, one level deeper, and the closing bracket on a line at the
    level of the container *)
Definition bracketed (indent : option nat) (level : nat)
    (opening closing : string) (chunks : list string) : string :=
  match chunks with
  | [] => opening +:+ closing
  | _ =>
      opening +:+ newline_indent indent (S level)
      +:+ String.concat
            (item_separator indent +:+ newline_indent indent (S level)) chunks
      +:+ newline_indent indent level +:+ closing
  end.

(** [_iterencode] at nesting depth [level].  The values of an object are
    rendered before its members are put in order; the order looks at the
    keys only, so the text is that of rendering the ordered members
    ([dumps_at_canonical] below). *)
Fixpoint dumps_at (sort_keys : bool) (indent : option nat) (level : nat)
    (o : json) : string :=
  match o with
  | JNull => "null"
  | JBool true => "true"
  | JBool false => "false"
  | JInt n => intstr n
  | JFloat r => r
  | JString s => encode_basestring_ascii s
  | JArray lst =>
      bracketed indent level "[" "]"
        (map (dumps_at sort_keys indent (S level)) lst)
  | JObject dct =>
      let chunks := map (on_value (dumps_at sort_keys indent (S level))) dct in
      let items := if sort_keys then sorted_items chunks else chunks in
      bracketed indent level "{" "}" (map render_member items)
  end.

(** [json.dumps(obj, sort_keys=..., indent=...)] *)
Definition dumps (sort_keys : bool) (indent : option nat) (o : json) : string :=
  dumps_at sort_keys indent 0 o.

(** *** What the serialised text is checked against *)

(** the value whose objects list their members by increasing key *)
Fixpoint canonical (o : json) : json :=
  match o with
  | JArray lst => JArray (map canonical lst)
  | JObject dct => JObject (sorted_items (map (on_value canonical) dct))
  | _ => o
  end.

Fixpoint increasing (keys : list pystr) : bool :=
  match keys with
  | [] => true
  | k :: keys' =>
      match keys' with
      | [] => true
      | k' :: _ => ltb k k'
      end && increasing keys'
  end.

(** every object of the value lists its keys in strictly increasing order *)
Fixpoint keys_sorted (o : json) : bool :=
  match o with
  | JArray lst => forallb keys_sorted lst
  | JObject dct =>
      increasing dct.*1
      && forallb (fun kv : pystr * json => let (_, v) := kv in keys_sorted v)
           dct
  | _ => true
  end.

(** the characters of the text the encoder emits for a float: digits, sign,
    point, exponent, and the letters of [NaN] and [Infinity] *)
Definition float_char (c : ascii) : bool :=
  existsb (Ascii.eqb c) (list_ascii_of_string "0123456789+-.eInfityNa").

(** the characters of the text of an integer *)
Definition int_char (c : ascii) : bool :=
  existsb (Ascii.eqb c) (list_ascii_of_string "0123456789-").

(** the characters a number, [NaN] or [Infinity] starts with *)
Definition number_head (c : ascii) : bool :=
  existsb (Ascii.eqb c) (list_ascii_of_string "0123456789-NI").

(** the text of a float: it is made of the characters above, starts as a
    number, [NaN] or [Infinity] does, and has a point, an exponent or a
    letter, which no integer has *)
Definition float_text (r : string) : bool :=
  match r with
  | EmptyString => false
  | String c _ => number_head c
  end
  && forallb float_char (list_ascii_of_string r)
  && negb (forallb int_char (list_ascii_of_string r)).

(** a value Python can hold: the keys of a [dict] are pairwise different,
    and a float prints as a float *)
Fixpoint wf_json (o : json) : bool :=
  match o with
  | JFloat r => float_text r
  | JArray lst => forallb wf_json lst
  | JObject dct =>
      bool_decide (NoDup dct.*1)
      && forallb (fun kv : pystr * json => let (_, v) := kv in wf_json v) dct
  | _ => true
  end.

(** [dct[key]] *)
Fixpoint assoc {A} (key : pystr) (dct : list (pystr * A)) : option A :=
  match dct with
  | [] => None
  | (k, v) :: dct' => if bool_decide (key = k) then Some v else assoc key dct'
  end.

(** the same value up to the order in which the keys of its objects were
    inserted: objects are compared as [dict.__eq__] does, by size and then
    key by key *)
Fixpoint same_value (a b : json) : bool :=
  match a, b with
  | JNull, JNull => true
  | JBool x, JBool y => Bool.eqb x y
  | JInt x, JInt y => Z.eqb x y
  | JFloat x, JFloat y => String.eqb x y
  | JString x, JString y => bool_decide (x = y)
  | JArray la, JArray lb =>
      (fix same_list (la : list json) (lb : list json) : bool :=
         match la, lb with
         | [], [] => true
         | x :: la', y :: lb' => same_value x y && same_list la' lb'
         | _, _ => false
         end) la lb
  | JObject da, JObject db =>
      Nat.eqb (length da) (length db)
      && forallb (fun kv : pystr * json =>
                    let (k, v) := kv in
                    match assoc k db with
                    | Some v' => same_value v v'
                    | None => false
                    end) da
  | _, _ => false
  end.

(** *** Reading the layout off the text

    A scanner over the characters of the output.  It tracks how many
    brackets are open ([depth]) and where it is: at the start of a line
    that holds an element, after [k] spaces; at the start of a line that
    closes a bracket; in the body of a line; inside a string, or after a
    backslash inside a string; right after an opening bracket; right after
    a comma.  After a comma the line ends.  After an opening bracket either
    the bracket is closed at once or the line ends.  A line that holds an
    element begins with exactly [n * depth] spaces; the bracket of a
    container that is not empty is closed at the start of a line of its
    own, after [n * (depth - 1)] spaces. *)
Inductive scan_mode : Type :=
  | LineStart (k : nat)
  | CloseLine (k : nat)
  | Body
  | InString
  | Escaped
  | AfterOpen
  | AfterComma.

Definition is_open (c : ascii) : bool := Ascii.eqb c "{" || Ascii.eqb c "[".
Definition is_close (c : ascii) : bool := Ascii.eqb c "}" || Ascii.eqb c "]".

Definition scan_step (n : nat) (st : nat * scan_mode) (c : ascii)
  : option (nat * scan_mode) :=
  let (depth, mode) := st in
  match mode with
  | LineStart k =>
      if Ascii.eqb c SPACE then Some (depth, LineStart (S k))
      else if Ascii.eqb c LF || is_close c || Ascii.eqb c "," then None
      else if (k =? n * depth)%nat then
        if Ascii.eqb c DQUOTE then Some (depth, InString)
        else if is_open c then Some (S depth, AfterOpen)
        else Some (depth, Body)
      else None
  | CloseLine k =>
      if Ascii.eqb c SPACE then Some (depth, CloseLine (S k))
      else if is_close c then
        if (0 <? depth)%nat && (k =? n * (depth - 1))%nat
        then Some (depth - 1, Body)%nat else None
      else None
  | Body =>
      if Ascii.eqb c LF then Some (depth, CloseLine 0)
      else if Ascii.eqb c DQUOTE then Some (depth, InString)
      else if is_open c then Some (S depth, AfterOpen)
      else if is_close c then None
      else if Ascii.eqb c "," then Some (depth, AfterComma)
      else Some (depth, Body)
  | InString =>
      if Ascii.eqb c BACKSLASH then Some (depth, Escaped)
      else if Ascii.eqb c DQUOTE then Some (depth, Body)
      else if Ascii.eqb c LF then None
      else Some (depth, InString)
  | Escaped => Some (depth, InString)
  | AfterOpen =>
      if is_close c then
        if (0 <? depth)%nat then Some (depth - 1, Body)%nat else None
      else if Ascii.eqb c LF then Some (depth, LineStart 0)
      else None
  | AfterComma =>
      if Ascii.eqb c LF then Some (depth, LineStart 0) else None
  end.

Fixpoint scan (n : nat) (st : nat * scan_mode) (text : string)
  : option (nat * scan_mode) :=
  match text with
  | EmptyString => Some st
  | String c text' =>
      match scan_step n st c with
      | Some st' => scan n st' text'
      | None => None
      end
  end.

(** every element and every member of [text] is on a line of its own,
    indented by [n] spaces per open bracket, and all brackets are closed at
    the end *)
Definition indented_by (n : nat) (text : string) : bool :=
  match scan n (0%nat, LineStart 0) text with
  | Some (O, Body) => true
  | _ => false
  end.

(** *** Reading the value off the text

    A reader of JSON text, as [json.loads] reads it, that keeps the members
    of an object in the order of the text.  [fuel] bounds the number of
    values read. *)

Definition is_ws (c : ascii) : bool :=
  Ascii.eqb c SPACE || Ascii.eqb c LF || Ascii.eqb c "009" || Ascii.eqb c "013".

Fixpoint skip_ws (s : string) : string :=
  match s with
  | String c s' => if is_ws c then skip_ws s' else s
  | EmptyString => ""
  end.

Definition hex_value (c : ascii) : option N :=
  let n := N_of_ascii c in
  if ((48 <=? n) && (n <=? 57))%N then Some (n - 48)%N
  else if ((97 <=? n) && (n <=? 102))%N then Some (n - 87)%N
  else if ((65 <=? n) && (n <=? 70))%N then Some (n - 55)%N
  else None.

Definition hex4_value (h1 h2 h3 h4 : ascii) : option N :=
  d1 ← hex_value h1; d2 ← hex_value h2; d3 ← hex_value h3; d4 ← hex_value h4;
  Some (d1 * 4096 + d2 * 256 + d3 * 16 + d4)%N.

(** the character after a backslash, [u] apart *)
Definition simple_escape (e : ascii) : option N :=
  if Ascii.eqb e DQUOTE then Some 34%N
  else if Ascii.eqb e BACKSLASH then Some 92%N
  else if Ascii.eqb e "/" then Some 47%N
  else if Ascii.eqb e "b" then Some 8%N
  else if Ascii.eqb e "f" then Some 12%N
  else if Ascii.eqb e "n" then Some 10%N
  else if Ascii.eqb e "r" then Some 13%N
  else if Ascii.eqb e "t" then Some 9%N
  else None.

Definition is_high_surrogate (n : N) : bool := ((55296 <=? n) && (n <=? 56319))%N.
Definition is_low_surrogate (n : N) : bool := ((56320 <=? n) && (n <=? 57343))%N.

(** the characters of a string up to its closing quote, and the text after
    the quote; a high surrogate followed by a low one is one code point *)
Fixpoint read_chars (s : string) : option (pystr * string) :=
  match s with
  | EmptyString => None
  | String c s1 =>
      if Ascii.eqb c DQUOTE then Some ([], s1)
      else if Ascii.eqb c BACKSLASH then
        match s1 with
        | EmptyString => None
        | String e s2 =>
            if Ascii.eqb e "u" then
              match s2 with
              | String h1 (String h2 (String h3 (String h4 s3))) =>
                  n ← hex4_value h1 h2 h3 h4;
                  match s3 with
                  | String b (String u
                      (String g1 (String g2 (String g3 (String g4 s4))))) =>
                      match
                        (if Ascii.eqb b BACKSLASH && Ascii.eqb u "u"
                         then hex4_value g1 g2 g3 g4 else None)
                      with
                      | Some m =>
                          if is_high_surrogate n && is_low_surrogate m then
                            '(cs, rest) ← read_chars s4;
                            Some ((65536 + (n - 55296) * 1024 + (m - 56320))%N
                                    :: cs, rest)
                          else '(cs, rest) ← read_chars s3; Some (n :: cs, rest)
                      | None => '(cs, rest) ← read_chars s3; Some (n :: cs, rest)
                      end
                  | _ => '(cs, rest) ← read_chars s3; Some (n :: cs, rest)
                  end
              | _ => None
              end
            else
              n ← simple_escape e;
              '(cs, rest) ← read_chars s2; Some (n :: cs, rest)
        end
      else if (N_of_ascii c <? 32)%N then None
      else '(cs, rest) ← read_chars s1; Some (N_of_ascii c :: cs, rest)
  end.

Fixpoint span (p : ascii -> bool) (s : string) : string * string :=
  match s with
  | String c s' =>
      if p c then let (token, rest) := span p s' in (String c token, rest)
      else ("", s)
  | EmptyString => ("", "")
  end.

(** a number: the text of an integer is read as an integer, any other run
    of the characters of numbers is kept as the text of a float *)
Definition read_number (s : string) : option (json * string) :=
  let (token, rest) := span float_char s in
  if forallb int_char (list_ascii_of_string token) then
    i ← NilZero.int_of_string token; Some (JInt (Z.of_int i), rest)
  else Some (JFloat token, rest).

(** [s] without its prefix [word] *)
Fixpoint strip (word s : string) : option string :=
  match word with
  | EmptyString => Some s
  | String a word' =>
      match s with
      | String c s' => if Ascii.eqb a c then strip word' s' else None
      | EmptyString => None
      end
  end.

Definition read_atom (s : string) : option (json * string) :=
  match strip "null" s with
  | Some rest => Some (JNull, rest)
  | None =>
      match strip "true" s with
      | Some rest => Some (JBool true, rest)
      | None =>
          match strip "false" s with
          | Some rest => Some (JBool false, rest)
          | None => read_number s
          end
      end
  end.

Fixpoint read_value (fuel : nat) (s : string) : option (json * string) :=
  match fuel with
  | O => None
  | S fuel' =>
      match skip_ws s with
      | EmptyString => None
      | String c s1 =>
          if Ascii.eqb c DQUOTE then
            '(k, rest) ← read_chars s1; Some (JString k, rest)
          else if Ascii.eqb c "[" then
            match strip "]" (skip_ws s1) with
            | Some rest => Some (JArray [], rest)
            | None => '(lst, rest) ← read_elements fuel' s1; Some (JArray lst, rest)
            end
          else if Ascii.eqb c "{" then
            match strip "}" (skip_ws s1) with
            | Some rest => Some (JObject [], rest)
            | None => '(dct, rest) ← read_members fuel' s1; Some (JObject dct, rest)
            end
          else read_atom (String c s1)
      end
  end
with read_elements (fuel : nat) (s : string) : option (list json * string) :=
  match fuel with
  | O => None
  | S fuel' =>
      '(v, rest) ← read_value fuel' s;
      match skip_ws rest with
      | String c rest' =>
          if Ascii.eqb c "," then
            '(lst, rest'') ← read_elements fuel' rest'; Some (v :: lst, rest'')
          else if Ascii.eqb c "]" then Some ([v], rest')
          else None
      | EmptyString => None
      end
  end
with read_members (fuel : nat) (s : string)
  : option (list (pystr * json) * string) :=
  match fuel with
  | O => None
  | S fuel' =>
      match skip_ws s with
      | String c s1 =>
          if Ascii.eqb c DQUOTE then
            '(k, s2) ← read_chars s1;
            s3 ← strip ":" (skip_ws s2);
            '(v, rest) ← read_value fuel' s3;
            match skip_ws rest with
            | String c' rest' =>
                if Ascii.eqb c' "," then
                  '(dct, rest'') ← read_members fuel' rest';
                  Some ((k, v) :: dct, rest'')
                else if Ascii.eqb c' "}" then Some ([(k, v)], rest')
                else None
            | EmptyString => None
            end
          else None
      | EmptyString => None
      end
  end.

(** the value a text holds, when the text is one value and nothing else *)
Definition loads (text : string) : option json :=
  '(o, rest) ← read_value (String.length text) text;
  match skip_ws rest with
  | EmptyString => Some o
  | _ => None
  end.

(** a code point that stands for a character: up to [0x10FFFF] and not a
    surrogate *)
Definition scalar (c : N) : bool :=
  ((c <? 55296) || ((57343 <? c) && (c <=? 1114111)))%N.

(** every string of the value, keys included, is made of characters *)
Fixpoint scalar_strings (o : json) : bool :=
  match o with
  | JString s => forallb scalar s
  | JArray lst => forallb scalar_strings lst
  | JObject dct =>
      forallb (fun kv : pystr * json =>
                 let (k, v) := kv in forallb scalar k && scalar_strings v) dct
  | _ => true
  end.

(** a value the reader gives back: its strings are made of characters and
    its floats print as floats *)
Fixpoint readable (o : json) : bool :=
  match o with
  | JFloat r => float_text r
  | JString s => forallb scalar s
  | JArray lst => forallb readable lst
  | JObject dct =>
      forallb (fun kv : pystr * json =>
                 let (k, v) := kv in forallb scalar k && readable v) dct
  | _ => true
  end.

(** the number of values in a value, and of the elements that hold them *)
Fixpoint size (o : json) : nat :=
  match o with
  | JArray lst => S (list_sum (map (fun x => S (size x)) lst))
  | JObject dct =>
      S (list_sum (map (fun kv : pystr * json => let (_, v) := kv in S (size v))
                     dct))
  | _ => 1
  end.

(** a text a number can stand in front of: it does not go on with a
    character of a number *)
Definition delimited (s : string) : Prop :=
  match s with
  | String c _ => float_char c = false
  | EmptyString => True
  end.

(** [text] prints [x] so that the reader gives [x] back, whatever fuel it
    is given beyond the size of [x] and whatever follows the text *)
Definition reads_back (text : json -> string) (x : json) : Prop :=
  forall fuel rest, (size x <= fuel)%nat -> delimited rest ->
    read_value fuel (text x +:+ rest) = Some (x, rest).

(** a run of white space *)
Definition blank (w : string) : Prop :=
  forallb is_ws (list_ascii_of_string w) = true.

(** the character a value starts with *)
Definition head_char (c : ascii) : bool :=
  number_head c || Ascii.eqb c "n" || Ascii.eqb c "t" || Ascii.eqb c "f"
  || Ascii.eqb c DQUOTE || Ascii.eqb c "[" || Ascii.eqb c "{".

(** *** Notions the proofs about the scanner use *)

(** members in the order of their keys *)
Definition key_le {A} (kv1 kv2 : pystr * A) : Prop := leb kv1.1 kv2.1 = true.

(** characters that leave the scanner in the body of a line *)
Definition inert (c : ascii) : bool :=
  negb (Ascii.eqb c LF || Ascii.eqb c DQUOTE || is_open c || is_close c
        || Ascii.eqb c ",").

(** characters an atom is made of: inert, and not a space *)
Definition atom_char (c : ascii) : bool := inert c && negb (Ascii.eqb c SPACE).

(** a text that may start a line: it begins with something that is neither
    blank, nor a comma, nor a closing bracket *)
Definition opens_line (text : string) : bool :=
  match text with
  | String c _ =>
      negb (Ascii.eqb c SPACE || Ascii.eqb c LF || is_close c
            || Ascii.eqb c ",")
  | EmptyString => false
  end.

End Json.

(** ** [os.path] on POSIX *)

Definition startswith_sep (p : string) : bool :=
  match p with
  | String c _ => Ascii.eqb c "/"
  | EmptyString => false
  end.

Fixpoint endswith_sep (p : string) : bool :=
  match p with
  | EmptyString => false
  | String c EmptyString => Ascii.eqb c "/"
  | String _ p' => endswith_sep p'
  end.

(** [posixpath.join(a, b)]: an absolute [b] replaces [a]; a separator is
    added unless [a] is empty or already ends with one. *)
Definition path_join (a b : string) : string :=
  if startswith_sep b then b
  else if String.eqb a "" || endswith_sep a then a +:+ b
  else a +:+ "/" +:+ b.

(** ** Exceptions the script lets escape *)

Inductive exn : Type :=
  | NoSectionError (section : string)
  | NoOptionError (option section : string)
  | ParsingError (source : string)
  | IOError (filename : string)
  | AttributeError (name : string).

(** ** [configparser]

    The state of a parser after [read]: the options of the [DEFAULT] section
    and those of every other section.  A value is stored as [get] hands it
    out. *)

Record ConfigParser : Type := {
  defaults : gmap string string;
  sections : gmap string (gmap string string)
}.

Definition DEFAULTSECT : string := "DEFAULT".

(** [RawConfigParser.get(section, option)]: an unknown section raises
    [NoSectionError]; an option found neither in the section nor among the
    defaults raises [NoOptionError]. *)
Definition config_get (config : ConfigParser) (section option : string)
  : exn + string :=
  match sections config !! section with
  | None =>
      if String.eqb section DEFAULTSECT then
        match defaults config !! option with
        | Some value => inr value
        | None => inl (NoOptionError option section)
        end
      else inl (NoSectionError section)
  | Some sectiondict =>
      match sectiondict !! option with
      | Some value => inr value
      | None =>
          match defaults config !! option with
          | Some value => inr value
          | None => inl (NoOptionError option section)
          end
      end
  end.

(** ** The API client and what is observable of a run *)

(** the methods of [virus_total_apis.PrivateApi] the script calls *)
Inductive api_method : Type :=
  | ScanFile | RescanFile | GetFileReport | GetFileBehaviour
  | GetNetworkTraffic | FileSearch | GetFile | ScanUrl | GetUrlReport
  | GetIpReport | GetDomainReport.

(** What [get_network_traffic] and [get_file] return: the content, or a
    [dict] on failure (the comment at lines 227 and 263 of the script). *)
Inductive response : Type :=
  | RDict (d : list (pystr * json))
  | RBytes (content : list Byte.byte).

Inductive stream : Type := stdout | stderr.

(** What the script does, one event for each of its statements that has
    an effect outside the process.  [EPrint] is a call of [print] by the
    script.  What the interpreter writes to the error stream on its own
    account is not an event: the traceback of an uncaught exception shows
    in the [Uncaught] outcome of the run, and the deprecation warning that
    [SafeConfigParser] raises from CPython 3.7 on is left out. *)
Inductive event : Type :=
  | EReadConfig (path : string)
  | ENewClient (api_key : string)
  | ECall (method : api_method) (arg : string)
  | EPrint (file : stream) (text : string)
  | EWriteFile (path : string) (content : list Byte.byte).

(** How a run ends: the function returns, [sys.exit(code)] is called, or an
    exception is not caught. *)
Inductive outcome (A : Type) : Type :=
  | Return (a : A)
  | SysExit (code : Z)
  | Uncaught (e : exn).
Arguments Return {A} a.
Arguments SysExit {A} code.
Arguments Uncaught {A} e.

(** the exit status the shell sees; CPython ends with status 1 on an
    uncaught exception *)
Definition exit_status {A} (o : outcome A) : Z :=
  match o with
  | Return _ => 0
  | SysExit code => code
  | Uncaught _ => 1
  end.

(** A computation extends the trace of events so far and ends in an
    outcome. *)
Definition M (A : Type) : Type := list event -> list event * outcome A.

#[export] Instance M_ret : MRet M := fun A a t => (t, Return a).

#[export] Instance M_bind : MBind M := fun A B f m t =>
  match m t with
  | (t', Return a) => f a t'
  | (t', SysExit code) => (t', SysExit code)
  | (t', Uncaught e) => (t', Uncaught e)
  end.

Definition emit (e : event) : M unit := fun t => ((t ++ [e])%list, Return tt).
Definition history : M (list event) := fun t => (t, Return t).
Definition sys_exit {A} (code : Z) : M A := fun t => (t, SysExit code).
Definition raise {A} (e : exn) : M A := fun t => (t, Uncaught e).

Definition run {A} (m : M A) : list event * outcome A := m [].

(** ** The world outside the script

    The file system as the script probes it, and the answers of the remote
    service.  An answer may depend on the API key, on everything that
    happened before the call, on the method and on its argument. *)
Record World : Type := {
  os_path_expanduser : string -> string;
  os_path_exists : string -> bool;
  os_path_isdir : string -> bool;
  (** the parser after [config.read(path)]; [None] when the file is not
      well formed and [read] raises *)
  config_read : string -> option ConfigParser;
  (** whether [open(path, 'wb')] succeeds *)
  open_wb : string -> bool;
  vt_json : string -> list event -> api_method -> string -> json;
  vt_raw : string -> list event -> api_method -> string -> response
}.

(** the client object: one field per method the script uses *)
Record PrivateApi : Type := {
  scan_file : string -> M json;
  rescan_file : string -> M json;
  get_file_report : string -> M json;
  get_file_behaviour : string -> M json;
  get_network_traffic : string -> M response;
  file_search : string -> M json;
  get_file : string -> M response;
  scan_url : string -> M json;
  get_url_report : string -> M json;
  get_ip_report : string -> M json;
  get_domain_report : string -> M json
}.

(** one blocking request: it is recorded, then the service answers *)
Definition call_json (w : World) (api_key : string) (method : api_method)
    (arg : string) : M json :=
  t ← history;
  emit (ECall method arg);;
  mret (vt_json w api_key t method arg).

Definition call_raw (w : World) (api_key : string) (method : api_method)
    (arg : string) : M response :=
  t ← history;
  emit (ECall method arg);;
  mret (vt_raw w api_key t method arg).

(** [VTPrivateAPI(api_key)]: the constructor stores the key *)
Definition VTPrivateAPI (w : World) (api_key : string) : M PrivateApi :=
  emit (ENewClient api_key);;
  mret {| scan_file := call_json w api_key ScanFile;
          rescan_file := call_json w api_key RescanFile;
          get_file_report := call_json w api_key GetFileReport;
          get_file_behaviour := call_json w api_key GetFileBehaviour;
          get_network_traffic := call_raw w api_key GetNetworkTraffic;
          file_search := call_json w api_key FileSearch;
          get_file := call_raw w api_key GetFile;
          scan_url := call_json w api_key ScanUrl;
          get_url_report := call_json w api_key GetUrlReport;
          get_ip_report := call_json w api_key GetIpReport;
          get_domain_report := call_json w api_key GetDomainReport |}.

(** ** The command line as [parse_args] returns it

    [argparse] is not modelled: a run starts from the [Namespace] it
    produces.  Each sub-parser of [parse_args] (lines 52 to 124) sets its
    own attributes; [command] is the name of the sub-parser that ran, or
    [None] when the command line names none. *)
Inductive subcommand : Type :=
  | FileScan (file : string)
  | Rescan (hash : list string)
  | FileReport (hash : list string)
  | Behaviour (hash : string)
  | Pcap (hash output_dir : string)
  | Search (query : string)
  | Download (hash output_dir : string)
  | UrlScan (url : list string)
  | UrlReport (url : list string)
  | IpReport (ip : string)
  | DomainReport (domain : string).

Record Namespace : Type := {
  config : string;
  subparser : option subcommand
}.

Definition subparser_name (s : subcommand) : string :=
  match s with
  | FileScan _ => "file-scan"
  | Rescan _ => "rescan"
  | FileReport _ => "file-report"
  | Behaviour _ => "behaviour"
  | Pcap _ _ => "pcap"
  | Search _ => "search"
  | Download _ _ => "download"
  | UrlScan _ => "url-scan"
  | UrlReport _ => "url-report"
  | IpReport _ => "ip-report"
  | DomainReport _ => "domain-report"
  end.

Definition command (args : Namespace) : option string :=
  subparser_name <$> subparser args.

(** attribute look-ups on the [Namespace] *)
Definition args_file (args : Namespace) : M string :=
  match subparser args with
  | Some (FileScan file) => mret file
  | _ => raise (AttributeError "file")
  end.

Definition args_hash_list (args : Namespace) : M (list string) :=
  match subparser args with
  | Some (Rescan hash) | Some (FileReport hash) => mret hash
  | _ => raise (AttributeError "hash")
  end.

Definition args_hash (args : Namespace) : M string :=
  match subparser args with
  | Some (Behaviour hash) | Some (Pcap hash _) | Some (Download hash _) =>
      mret hash
  | _ => raise (AttributeError "hash")
  end.

Definition args_output_dir (args : Namespace) : M string :=
  match subparser args with
  | Some (Pcap _ output_dir) | Some (Download _ output_dir) => mret output_dir
  | _ => raise (AttributeError "output_dir")
  end.

Definition args_query (args : Namespace) : M string :=
  match subparser args with
  | Some (Search query) => mret query
  | _ => raise (AttributeError "query")
  end.

Definition args_url (args : Namespace) : M (list string) :=
  match subparser args with
  | Some (UrlScan url) | Some (UrlReport url) => mret url
  | _ => raise (AttributeError "url")
  end.

Definition args_ip (args : Namespace) : M string :=
  match subparser args with
  | Some (IpReport ip) => mret ip
  | _ => raise (AttributeError "ip")
  end.

Definition args_domain (args : Namespace) : M string :=
  match subparser args with
  | Some (DomainReport domain) => mret domain
  | _ => raise (AttributeError "domain")
  end.

(** [command == name], where [command] may be [None] *)
Definition command_is (command : option string) (name : string) : bool :=
  match command with
  | Some c => String.eqb c name
  | None => false
  end.

(** ** The script, function by function *)

(** [print(text, file=file)] *)
Definition py_print (file : stream) (text : string) : M unit :=
  emit (EPrint file (text +:+ String LF "")).

(** [error] with its variable arguments: [print('ERROR:', ..., file=sys.stderr)], then
    [sys.exit(1)] *)
Definition error {A} (args : list string) : M A :=
  py_print stderr (String.concat " " ("ERROR:" :: args));;
  sys_exit 1.

(** [config = SafeConfigParser(); config.read(conf_file)] *)
Definition read_config_file (w : World) (conf_file : string) : M ConfigParser :=
  emit (EReadConfig conf_file);;
  match config_read w conf_file with
  | Some config => mret config
  | None => raise (ParsingError conf_file)
  end.

(** [config.get(section, option)] *)
Definition get_option (config : ConfigParser) (section option : string)
  : M string :=
  match config_get config section option with
  | inr value => mret value
  | inl e => raise e
  end.

(** [parse_config(conf_file)]; the result is [Some key] for a [str] and
    [None] for Python's [None] *)
Definition parse_config (w : World) (conf_file : string) : M (option string) :=
  if os_path_exists w conf_file then
    config ← read_config_file w conf_file;
    value ← get_option config "vt" "apikey";
    mret (Some value)
  else
    error (A:=unit) ["Config file '" +:+ conf_file +:+ "' does not exist"];;
    mret None.

(** [pretty_print_json(json_data, output)] *)
Definition pretty_print_json (json_data : json) (output : stream) : M unit :=
  py_print output (Json.dumps true (Some 4) json_data).

(** [check_num_args(args)] *)
Definition check_num_args (args : list string) : M unit :=
  if (25 <? length args)%nat then
    error ["The VT Private API only allows a maximum of 25 arguments to "
           +:+ "be specified in a single query"]
  else mret tt.

Definition file_scan (virus_total : PrivateApi) (file_to_scan : string)
  : M unit :=
  response ← scan_file virus_total file_to_scan;
  pretty_print_json response stdout.

Definition file_rescan (virus_total : PrivateApi) (hash_list : list string)
  : M unit :=
  check_num_args hash_list;;
  response ← rescan_file virus_total (String.concat "," hash_list);
  pretty_print_json response stdout.

Definition file_report (virus_total : PrivateApi) (hash_list : list string)
  : M unit :=
  check_num_args hash_list;;
  response ← get_file_report virus_total (String.concat "," hash_list);
  pretty_print_json response stdout.

Definition file_behaviour (virus_total : PrivateApi) (hash_ : string)
  : M unit :=
  response ← get_file_behaviour virus_total hash_;
  pretty_print_json response stdout.

(** [with open(path, 'wb') as out_file: out_file.write(content)] *)
Definition write_file (w : World) (path : string) (content : list Byte.byte)
  : M unit :=
  if open_wb w path then emit (EWriteFile path content)
  else raise (IOError path).

Definition network_traffic (w : World) (virus_total : PrivateApi)
    (hash_ output_dir : string) : M unit :=
  (if negb (os_path_isdir w output_dir) then
     error ["'" +:+ output_dir +:+ "' is not a valid output directory"]
   else mret tt);;
  response ← get_network_traffic virus_total hash_;
  match response with
  | RDict d => pretty_print_json (JObject d) stdout
  | RBytes content =>
      write_file w (path_join output_dir (hash_ +:+ ".pcap")) content
  end.

Definition search (virus_total : PrivateApi) (query : string) : M unit :=
  response ← file_search virus_total query;
  pretty_print_json response stdout.

Definition file_download (w : World) (virus_total : PrivateApi)
    (hash_ output_dir : string) : M unit :=
  (if negb (os_path_isdir w output_dir) then
     error ["'" +:+ output_dir +:+ "' is not a valid output directory"]
   else mret tt);;
  response ← get_file virus_total hash_;
  match response with
  | RDict d => pretty_print_json (JObject d) stdout
  | RBytes content =>
      write_file w (path_join output_dir hash_) content;;
      file_report virus_total [hash_]
  end.

Definition url_scan (virus_total : PrivateApi) (url_list : list string)
  : M unit :=
  check_num_args url_list;;
  response ← scan_url virus_total (String.concat (String LF "") url_list);
  pretty_print_json response stdout.

Definition url_report (virus_total : PrivateApi) (url_list : list string)
  : M unit :=
  check_num_args url_list;;
  response ← get_url_report virus_total (String.concat (String LF "") url_list);
  pretty_print_json response stdout.

Definition ip_report (virus_total : PrivateApi) (ip_address : string)
  : M unit :=
  response ← get_ip_report virus_total ip_address;
  pretty_print_json response stdout.

Definition domain_report (virus_total : PrivateApi) (domain_name : string)
  : M unit :=
  response ← get_domain_report virus_total domain_name;
  pretty_print_json response stdout.

(** [main()], from the parsed command line on *)
Definition main (w : World) (args : Namespace) : M unit :=
  let config_file := os_path_expanduser w (config args) in
  let command := command args in
  api_key ← parse_config w config_file;
  api_key ← match api_key with
            | None =>
                error ["An API key must be specified in '" +:+ config_file
                       +:+ "'"]
            | Some key => mret key
            end;
  virus_total ← VTPrivateAPI w api_key;
  if command_is command "file-scan" then
    file ← args_file args; file_scan virus_total file
  else if command_is command "rescan" then
    hash ← args_hash_list args; file_rescan virus_total hash
  else if command_is command "file-report" then
    hash ← args_hash_list args; file_report virus_total hash
  else if command_is command "behaviour" then
    hash ← args_hash args; file_behaviour virus_total hash
  else if command_is command "pcap" then
    hash ← args_hash args; output_dir ← args_output_dir args;
    network_traffic w virus_total hash output_dir
  else if command_is command "search" then
    query ← args_query args; search virus_total query
  else if command_is command "download" then
    hash ← args_hash args; output_dir ← args_output_dir args;
    file_download w virus_total hash output_dir
  else if command_is command "url-scan" then
    url ← args_url args; url_scan virus_total url
  else if command_is command "url-report" then
    url ← args_url args; url_report virus_total url
  else if command_is command "ip-report" then
    ip ← args_ip args; ip_report virus_total ip
  else if command_is command "domain-report" then
    domain ← args_domain args; domain_report virus_total domain
  else mret tt.

(** ** What a trace shows *)

(** the delegated calls of a trace, in order *)
Definition calls (t : list event) : list (api_method * string) :=
  omap (fun e => match e with ECall m a => Some (m, a) | _ => None end) t.

Definition stream_eqb (a b : stream) : bool :=
  match a, b with
  | stdout, stdout | stderr, stderr => true
  | _, _ => false
  end.

(** the texts the script printed to a stream, in order *)
Definition printed (file : stream) (t : list event) : list string :=
  omap (fun e => match e with
                 | EPrint f text => if stream_eqb f file then Some text else None
                 | _ => None
                 end) t.

(** the files written, in order *)
Definition written (t : list event) : list (string * list Byte.byte) :=
  omap (fun e => match e with
                 | EWriteFile path content => Some (path, content)
                 | _ => None
                 end) t.

(** the subcommands that take a list, with the method each one calls and
    the separator it joins the list with *)
Definition list_command (s : subcommand)
  : option (api_method * string * list string) :=
  match s with
  | Rescan hash => Some (RescanFile, ",", hash)
  | FileReport hash => Some (GetFileReport, ",", hash)
  | UrlScan url => Some (ScanUrl, String LF "", url)
  | UrlReport url => Some (GetUrlReport, String LF "", url)
  | _ => None
  end.

(** the subcommands that save a payload, with the method each one calls,
    the hash, the output directory and the name of the file *)
Definition binary_command (s : subcommand)
  : option (api_method * string * string * string) :=
  match s with
  | Pcap hash output_dir =>
      Some (GetNetworkTraffic, hash, output_dir, hash +:+ ".pcap")
  | Download hash output_dir => Some (GetFile, hash, output_dir, hash)
  | _ => None
  end.

(** the configuration file [main] loads *)
Definition config_path (w : World) (args : Namespace) : string :=
  os_path_expanduser w (config args).

(** the trace once the key is loaded and the client built *)
Definition loaded (w : World) (args : Namespace) (key : string) : list event :=
  [EReadConfig (config_path w args); ENewClient key].

(** what [error] prints for a message *)
Definition error_line (message : string) : string :=
  "ERROR: " +:+ message +:+ String LF "".

(** what [pretty_print_json] prints for a value *)
Definition json_text (o : json) : string :=
  Json.dumps true (Some 4) o +:+ String LF "".

(** the reading of the specification that gives every subcommand but
    [download] one delegated call in every run *)
Definition one_call_in_every_run : Prop :=
  forall (w : World) (args : Namespace) (s : subcommand),
    subparser args = Some s ->
    subparser_name s <> "download" ->
    length (calls (run (main w args)).1) = 1%nat.

(** the subcommands that take one string, with the method each one calls
    on it *)
Definition single_command (s : subcommand) : option (api_method * string) :=
  match s with
  | FileScan file => Some (ScanFile, file)
  | Behaviour hash => Some (GetFileBehaviour, hash)
  | Search query => Some (FileSearch, query)
  | IpReport ip => Some (GetIpReport, ip)
  | DomainReport domain => Some (GetDomainReport, domain)
  | _ => None
  end.

(** the methods a subcommand calls, in the order it calls them *)
Definition command_methods (s : subcommand) : list api_method :=
  match s with
  | FileScan _ => [ScanFile]
  | Rescan _ => [RescanFile]
  | FileReport _ => [GetFileReport]
  | Behaviour _ => [GetFileBehaviour]
  | Pcap _ _ => [GetNetworkTraffic]
  | Search _ => [FileSearch]
  | Download _ _ => [GetFile; GetFileReport]
  | UrlScan _ => [ScanUrl]
  | UrlReport _ => [GetUrlReport]
  | IpReport _ => [GetIpReport]
  | DomainReport _ => [GetDomainReport]
  end.

(** [c in s] *)
Fixpoint has_char (c : ascii) (s : string) : bool :=
  match s with
  | EmptyString => false
  | String x s' => Ascii.eqb x c || has_char c s'
  end.

(** [s.split(c)] for a separator of one character: what the receiver of a
    joined list reads back *)
Fixpoint split_on (c : ascii) (s : string) : list string :=
  match s with
  | EmptyString => [""]
  | String x s' =>
      if Ascii.eqb x c then "" :: split_on c s'
      else
        match split_on c s' with
        | field :: fields => String x field :: fields
        | [] => [String x ""]
        end
  end.

(** a newline or a printable ASCII character, [' '] to ['~'] *)
Definition printable (c : ascii) : bool :=
  Ascii.eqb c LF
  || ((32 <=? nat_of_ascii c)%nat && (nat_of_ascii c <=? 126)%nat).

Definition ascii_only (s : string) : bool :=
  forallb printable (list_ascii_of_string s).

(** the three messages the script hands to [error] on a run *)
Definition config_missing_message (config_file : string) : string :=
  "Config file '" +:+ config_file +:+ "' does not exist".

Definition too_many_arguments_message : string :=
  "The VT Private API only allows a maximum of 25 arguments to "
  +:+ "be specified in a single query".

Definition invalid_output_dir_text (output_dir : string) : string :=
  "'" +:+ output_dir +:+ "' is not a valid output directory".

(** the message [main] holds for a missing key *)
Definition api_key_message (config_file : string) : string :=
  "An API key must be specified in '" +:+ config_file +:+ "'".

(** ** Sample worlds and command lines *)

Definition demo_config : ConfigParser :=
  {| defaults := ∅; sections := {[ "vt" := {[ "apikey" := "0123abcd" ]} ]} |}.

(** a [vt] section that has no [apikey] *)
Definition keyless_config : ConfigParser :=
  {| defaults := ∅; sections := {[ "vt" := {[ "user" := "me" ]} ]} |}.

Definition demo_report : json :=
  JObject [(str "response_code", JInt 1); (str "positives", JInt 0)].

(** one answer, its keys inserted in two different orders *)
Definition demo_scan : json :=
  JObject [(str "scans", JObject [(str "McAfee", JObject [(str "detected", JBool false);
                                                   (str "version", JString (str "6.0"))]);
                              (str "Avast", JObject [(str "version", JString (str "18.4"));
                                                  (str "detected", JBool true)])]);
           (str "positives", JInt 1);
           (str "tags", JArray [JString (str "peexe"); JString (str "upx")]);
           (str "score", JFloat "0.5")].

Definition demo_scan_reordered : json :=
  JObject [(str "tags", JArray [JString (str "peexe"); JString (str "upx")]);
           (str "score", JFloat "0.5");
           (str "scans", JObject [(str "Avast", JObject [(str "detected", JBool true);
                                                  (str "version", JString (str "18.4"))]);
                              (str "McAfee", JObject [(str "version", JString (str "6.0"));
                                                   (str "detected", JBool false)])]);
           (str "positives", JInt 1)].

(** an answer whose keys and strings go beyond ASCII: an accented letter,
    two CJK characters, and a character outside the basic plane *)
Definition demo_names : json :=
  JObject [([26085; 26412]%N, JString [128512%N]);
           (str "name", JNull);
           ((str "caf" ++ [233%N])%list, JInt 2)].

Definition demo_world : World :=
  {| os_path_expanduser p :=
       if String.eqb p "~/.vtapi" then "/home/user/.vtapi" else p;
     os_path_exists p := String.eqb p "/home/user/.vtapi";
     os_path_isdir p := String.eqb p "/tmp";
     config_read _ := Some demo_config;
     open_wb _ := true;
     vt_json _ _ _ _ := demo_report;
     vt_raw _ _ _ arg :=
       if String.eqb arg "unknown"
       then RDict [(str "response_code", JInt 0)]
       else RBytes [Byte.x4d; Byte.x5a] |}.

Definition keyless_world : World :=
  {| os_path_expanduser := os_path_expanduser demo_world;
     os_path_exists := os_path_exists demo_world;
     os_path_isdir := os_path_isdir demo_world;
     config_read _ := Some keyless_config;
     open_wb := open_wb demo_world;
     vt_json := vt_json demo_world;
     vt_raw := vt_raw demo_world |}.

(** a text between double quotes *)
Definition quoted (s : string) : string :=
  String DQUOTE (s +:+ String DQUOTE "").

(** the lines [pretty_print_json] prints for [demo_report] *)
Definition demo_report_lines : list string :=
  ["{";
   "    " +:+ quoted "positives" +:+ ": 0,";
   "    " +:+ quoted "response_code" +:+ ": 1";
   "}"].

(** the lines [pretty_print_json] prints for [demo_names] *)
Definition demo_names_lines : list string :=
  ["{";
   "    " +:+ quoted "caf\u00e9" +:+ ": 2,";
   "    " +:+ quoted "name" +:+ ": null,";
   "    " +:+ quoted "\u65e5\u672c" +:+ ": " +:+ quoted "\ud83d\ude00";
   "}"].

(** the sample world on a file system that refuses every write *)
Definition readonly_world : World :=
  {| os_path_expanduser := os_path_expanduser demo_world;
     os_path_exists := os_path_exists demo_world;
     os_path_isdir := os_path_isdir demo_world;
     config_read := config_read demo_world;
     open_wb _ := false;
     vt_json := vt_json demo_world;
     vt_raw := vt_raw demo_world |}.

Definition demo_args (s : option subcommand) : Namespace :=
  {| config := "~/.vtapi"; subparser := s |}.


(** ** The serialiser: order of the keys *)

Module JsonFacts.
Import Json.

(** induction on a value, with the hypothesis for every element of an array
    and every member of an object *)
Lemma json_ind (P : json -> Prop) :
  P JNull -> (forall b, P (JBool b)) -> (forall n, P (JInt n)) ->
  (forall r, P (JFloat r)) -> (forall s, P (JString s)) ->
  (forall lst, Forall P lst -> P (JArray lst)) ->
  (forall dct, Forall (fun kv => P kv.2) dct -> P (JObject dct)) ->
  forall o, P o.
Proof.
  intros Hnull Hbool Hint Hfloat Hstr Harr Hobj.
  fix IH 1. intros [ | b | n | r | s | lst | dct].
  - exact Hnull.
  - apply Hbool.
  - apply Hint.
  - apply Hfloat.
  - apply Hstr.
  - apply Harr. induction lst as [|x lst IHl]; constructor; [apply IH|exact IHl].
  - apply Hobj.
    induction dct as [|[k v] dct IHd]; constructor; [apply IH|exact IHd].
Qed.

(** *** The order on keys *)

Ltac order_cases :=
  repeat match goal with
         | H : (_ ?= _)%N = Eq |- _ => apply N.compare_eq_iff in H
         | H : (?x ?= ?y)%N = Lt |- _ => change (N.lt x y) in H
         | H : (?x ?= ?y)%N = Gt |- _ => change (N.gt x y) in H
         end.

Lemma compare_refl (a : pystr) : compare a a = Eq.
Proof. induction a as [|x a IH]; cbn; [done|]. by rewrite N.compare_refl. Qed.

Lemma compare_eq (a b : pystr) : compare a b = Eq -> a = b.
Proof.
  revert b. induction a as [|x a IH]; intros [|y b]; cbn; try done.
  destruct (x ?= y)%N eqn:Hxy; try done. order_cases. intros H.
  by rewrite Hxy, (IH b H).
Qed.

Lemma compare_antisym (a b : pystr) : compare b a = CompOpp (compare a b).
Proof.
  revert b. induction a as [|x a IH]; intros [|y b]; cbn; try done.
  rewrite (N.compare_antisym x y).
  destruct (x ?= y)%N; cbn; [apply IH|done..].
Qed.

Lemma leb_total (a b : pystr) : leb a b = true \/ leb b a = true.
Proof.
  unfold leb. rewrite (compare_antisym a b). destruct (compare a b); auto.
Qed.

Lemma leb_antisym (a b : pystr) : leb a b = true -> leb b a = true -> a = b.
Proof.
  unfold leb. rewrite (compare_antisym a b).
  destruct (compare a b) eqn:Hc; cbn; try done. intros _ _. by apply compare_eq.
Qed.

Lemma leb_trans (a b c : pystr) :
  leb a b = true -> leb b c = true -> leb a c = true.
Proof.
  unfold leb. revert b c.
  induction a as [|x a IH]; intros [|y b] [|z c]; cbn; try done.
  destruct (x ?= y)%N eqn:Hxy, (y ?= z)%N eqn:Hyz; try done; order_cases;
    intros Hab Hbc.
  - subst. rewrite N.compare_refl. by apply (IH b).
  - subst. by rewrite (proj2 (N.compare_lt_iff y z) Hyz).
  - subst. by rewrite (proj2 (N.compare_lt_iff x z) Hxy).
  - assert (x < z)%N as Hxz by lia.
    by rewrite (proj2 (N.compare_lt_iff x z) Hxz).
Qed.

Lemma leb_false_flip (a b : pystr) : leb a b = false -> leb b a = true.
Proof.
  intros H. destruct (leb_total a b) as [H'|H']; congruence.
Qed.

Lemma leb_ne_ltb (a b : pystr) : leb a b = true -> a <> b -> ltb a b = true.
Proof.
  unfold leb, ltb. destruct (compare a b) eqn:Hc; try done.
  intros _ Hne. by apply compare_eq in Hc.
Qed.

Section Items.
Context {A : Type}.
Implicit Types (kv : pystr * A) (l : list (pystr * A)).

#[local] Instance key_le_trans : Transitive (@key_le A).
Proof. intros x y z. apply leb_trans. Qed.

Lemma insert_item_perm kv l : insert_item kv l ≡ₚ kv :: l.
Proof.
  induction l as [|x l IH]; cbn; [done|].
  destruct (leb _ _); [done|]. rewrite IH. apply perm_swap.
Qed.

Lemma sorted_items_perm l : sorted_items l ≡ₚ l.
Proof.
  induction l as [|x l IH]; cbn; [done|].
  by rewrite insert_item_perm, IH.
Qed.

Lemma insert_item_sorted kv l :
  StronglySorted (@key_le A) l -> StronglySorted (@key_le A) (insert_item kv l).
Proof.
  induction 1 as [|x l Hl IH Hx]; cbn.
  - repeat constructor.
  - destruct (leb kv.1 x.1) eqn:Hle.
    + constructor; [by constructor|]. constructor; [done|].
      eapply Forall_impl; [exact Hx|]. intros y Hy.
      by etrans.
    + constructor; [done|]. rewrite insert_item_perm.
      constructor; [|done]. by apply leb_false_flip.
Qed.

Lemma sorted_items_sorted l : StronglySorted (@key_le A) (sorted_items l).
Proof.
  induction l; cbn; [constructor|]. by apply insert_item_sorted.
Qed.

Lemma nodup_keys_functional l k (v1 v2 : A) :
  NoDup l.*1 -> (k, v1) ∈ l -> (k, v2) ∈ l -> v1 = v2.
Proof.
  induction l as [|[k' v'] l IH]; cbn; intros Hnd H1 H2.
  { by apply elem_of_nil in H1. }
  inversion Hnd as [|? ? Hk Hnd']; subst.
  assert (forall v, (k', v) ∈ l -> False) as Hfresh.
  { intros v Hv. apply Hk. apply (list_elem_of_fmap_2 fst) in Hv. done. }
  apply elem_of_cons in H1 as [H1|H1]; apply elem_of_cons in H2 as [H2|H2];
    simplify_eq; try done; try (exfalso; eauto; fail).
  by apply IH.
Qed.

(** two key-sorted listings of the same members, with pairwise different
    keys, are the same list *)
Lemma sorted_unique l1 l2 :
  NoDup l1.*1 -> StronglySorted (@key_le A) l1 -> StronglySorted (@key_le A) l2 ->
  l1 ≡ₚ l2 -> l1 = l2.
Proof.
  intros Hnd Hs1 Hs2 Hp.
  apply (StronglySorted_unique_strong (@key_le A)); try done.
  intros [k1 v1] [k2 v2] H1 H2 Hle1 Hle2. rewrite <- Hp in H2.
  assert (k1 = k2) as -> by by apply leb_antisym.
  f_equal. by eapply nodup_keys_functional.
Qed.

Lemma sorted_items_ext l1 l2 :
  NoDup l1.*1 -> l1 ≡ₚ l2 -> sorted_items l1 = sorted_items l2.
Proof.
  intros Hnd Hp. apply sorted_unique; auto using sorted_items_sorted.
  - by rewrite sorted_items_perm.
  - by rewrite !sorted_items_perm.
Qed.

Lemma sorted_items_nil l : sorted_items l = [] -> l = [].
Proof.
  intros H. apply Permutation_nil. by rewrite <- H, sorted_items_perm.
Qed.

Lemma sorted_increasing l :
  NoDup l.*1 -> StronglySorted (@key_le A) l -> increasing l.*1 = true.
Proof.
  induction l as [|[k v] l IH]; [done|].
  intros Hnd Hs. inversion Hnd as [|? ? Hk Hnd']; subst.
  inversion Hs as [|? ? Hs' Hall]; subst. cbn.
  rewrite IH by done. destruct l as [|[k' v'] l']; [done|]. cbn.
  rewrite andb_true_r. inversion Hall as [|? ? Hle _]; subst.
  apply leb_ne_ltb; [done|]. intros ->. apply Hk. by left.
Qed.
End Items.

(** ordering looks at the keys only, so it commutes with a map on the
    values *)
Lemma insert_item_map {A B} (f : A -> B) (kv : pystr * A) l :
  insert_item (on_value f kv) (on_value f <$> l)
  = on_value f <$> insert_item kv l.
Proof.
  induction l as [|x l IH]; cbn; [done|].
  destruct kv as [k v], x as [k' v']; cbn in *.
  destruct (leb k k'); cbn; [done|]. by rewrite IH.
Qed.

Lemma sorted_items_map {A B} (f : A -> B) (l : list (pystr * A)) :
  sorted_items (on_value f <$> l) = on_value f <$> sorted_items l.
Proof.
  induction l as [|x l IH]; cbn; [done|].
  by rewrite IH, insert_item_map.
Qed.

Lemma on_value_keys {A B} (f : A -> B) (l : list (pystr * A)) :
  (on_value f <$> l).*1 = l.*1.
Proof. induction l as [|[k v] l IH]; cbn; [done|]. by rewrite IH. Qed.

Lemma dumps_at_array sort_keys indent level lst :
  dumps_at sort_keys indent level (JArray lst)
  = bracketed indent level "[" "]"
      (dumps_at sort_keys indent (S level) <$> lst).
Proof. reflexivity. Qed.

Lemma dumps_at_object sort_keys indent level dct :
  dumps_at sort_keys indent level (JObject dct)
  = let chunks := on_value (dumps_at sort_keys indent (S level)) <$> dct in
    bracketed indent level "{" "}"
      (render_member <$> (if sort_keys then sorted_items chunks else chunks)).
Proof. reflexivity. Qed.

Lemma canonical_array lst : canonical (JArray lst) = JArray (canonical <$> lst).
Proof. reflexivity. Qed.

Lemma canonical_object dct :
  canonical (JObject dct)
  = JObject (sorted_items (on_value canonical <$> dct)).
Proof. reflexivity. Qed.

Lemma on_value_compose {A B C} (f : A -> B) (g : B -> C) (l : list (pystr * A)) :
  on_value g <$> (on_value f <$> l) = on_value (g ∘ f) <$> l.
Proof.
  rewrite <- list_fmap_compose. apply list_fmap_ext. by intros ? [k v].
Qed.

Lemma on_value_ext {A B} (f g : A -> B) (l : list (pystr * A)) :
  Forall (fun kv => f kv.2 = g kv.2) l -> on_value f <$> l = on_value g <$> l.
Proof.
  induction 1 as [|[k v] l Hkv _ IH]; cbn in *; [done|]. by rewrite Hkv, IH.
Qed.

(** With [sort_keys] the text is the text, members in the order given, of
    the value whose objects list their members by increasing key. *)
Lemma dumps_at_canonical indent (o : json) : forall level,
  dumps_at true indent level o = dumps_at false indent level (canonical o).
Proof.
  induction o as [ | | | | | lst IH | dct IH] using json_ind; intros level;
    try reflexivity.
  - rewrite canonical_array, !dumps_at_array. f_equal.
    rewrite <- list_fmap_compose. apply Forall_fmap_ext.
    eapply Forall_impl; [exact IH|]. intros x Hx. apply Hx.
  - rewrite canonical_object, !dumps_at_object. cbn zeta. do 2 f_equal.
    rewrite <- sorted_items_map, on_value_compose. f_equal.
    apply on_value_ext. eapply Forall_impl; [exact IH|]. intros x Hx. apply Hx.
Qed.

Lemma wf_json_object dct :
  wf_json (JObject dct) = true ->
  NoDup dct.*1 /\ Forall (fun kv => wf_json kv.2 = true) dct.
Proof.
  cbn. intros [Hnd Hall]%andb_true_iff. split.
  - by apply bool_decide_eq_true in Hnd.
  - apply Forall_forall. intros [k v] Hin.
    rewrite forallb_forall in Hall. apply (Hall (k, v)).
    by apply list_elem_of_In.
Qed.

Lemma wf_json_array lst :
  wf_json (JArray lst) = true -> Forall (fun x => wf_json x = true) lst.
Proof.
  cbn. rewrite forallb_forall. intros H. apply Forall_forall. intros x Hx.
  apply H. by apply list_elem_of_In.
Qed.

(** The canonical value has its keys in strictly increasing order. *)
Lemma canonical_keys_sorted (o : json) :
  wf_json o = true -> keys_sorted (canonical o) = true.
Proof.
  induction o as [ | | | | | lst IH | dct IH] using json_ind; intros Hwf;
    try reflexivity.
  - apply wf_json_array in Hwf. rewrite canonical_array. cbn.
    apply forallb_forall. intros x Hx%list_elem_of_In.
    apply list_elem_of_fmap in Hx as (y & -> & Hy).
    rewrite Forall_forall in IH, Hwf. auto.
  - apply wf_json_object in Hwf as [Hnd Hwf]. rewrite canonical_object. cbn.
    apply andb_true_iff. split.
    + apply sorted_increasing; [|apply sorted_items_sorted].
      rewrite sorted_items_perm, on_value_keys. done.
    + apply forallb_forall. intros [k v] Hx%list_elem_of_In.
      rewrite sorted_items_perm in Hx.
      apply list_elem_of_fmap in Hx as ([k' v'] & Heq & Hy). cbn in Heq.
      injection Heq as -> ->.
      rewrite Forall_forall in IH, Hwf. apply (IH (k', v')); [done|].
      by apply (Hwf (k', v')).
Qed.

Lemma assoc_elem {A} (k : pystr) (v : A) dct :
  assoc k dct = Some v -> (k, v) ∈ dct.
Proof.
  induction dct as [|[k' v'] dct IH]; cbn; [done|].
  case_bool_decide as Hk.
  - subst. intros [= ->]. by left.
  - intros H. right. auto.
Qed.

(** Two values that differ only in the order of their keys have the same
    canonical value. *)
Lemma same_value_canonical (a : json) : forall b,
  wf_json a = true -> wf_json b = true ->
  same_value a b = true -> canonical a = canonical b.
Proof.
  induction a as [ | x | x | x | x | la IH | da IH] using json_ind;
    intros [ | y | y | y | y | lb | db] Hwa Hwb Hsame; try discriminate;
    try reflexivity.
  - cbn in Hsame. apply Bool.eqb_prop in Hsame. by subst.
  - cbn in Hsame. apply Z.eqb_eq in Hsame. by subst.
  - cbn in Hsame. apply String.eqb_eq in Hsame. by subst.
  - cbn in Hsame. apply bool_decide_eq_true in Hsame. by subst.
  - rewrite !canonical_array. f_equal.
    apply wf_json_array in Hwa, Hwb. cbn in Hsame.
    revert lb Hwb Hsame.
    induction IH as [|x la Hx _ IHla]; intros [|y lb] Hwb Hsame;
      try discriminate; [done|].
    apply andb_true_iff in Hsame as [Hxy Hrest].
    inversion Hwa; inversion Hwb; subst. cbn. f_equal; auto.
  - rewrite !canonical_object. f_equal.
    apply wf_json_object in Hwa as [Hnda Hwa], Hwb as [Hndb Hwb].
    cbn in Hsame. apply andb_true_iff in Hsame as [Hlen Hall].
    apply Nat.eqb_eq in Hlen. rewrite forallb_forall in Hall.
    apply sorted_items_ext; [by rewrite on_value_keys|].
    apply submseteq_length_Permutation; [|by rewrite !length_fmap, Hlen].
    apply NoDup_submseteq.
    { apply (NoDup_fmap_1 fst). by rewrite on_value_keys. }
    intros kv ([k v] & -> & Hin)%list_elem_of_fmap. cbn.
    pose proof (Hall (k, v) (proj1 (list_elem_of_In _ _) Hin)) as Hk.
    cbn in Hk. destruct (assoc k db) as [v'|] eqn:Hassoc; [|discriminate].
    apply assoc_elem in Hassoc.
    rewrite Forall_forall in IH, Hwa, Hwb.
    assert (canonical v = canonical v') as Hc.
    { apply (IH (k, v) Hin v'); [by apply (Hwa (k, v))|by apply (Hwb (k, v'))|done]. }
    unfold on_value at 1. rewrite Hc.
    apply (list_elem_of_fmap_2 (on_value canonical) _ (k, v')). done.
Qed.

(** The text does not depend on the order in which keys were inserted. *)
Lemma dumps_order_independent indent (a b : json) :
  wf_json a = true -> wf_json b = true -> same_value a b = true ->
  dumps true indent a = dumps true indent b.
Proof.
  intros Ha Hb Hab. unfold dumps.
  by rewrite !dumps_at_canonical, (same_value_canonical a b).
Qed.

Lemma elem_assoc {A} (k : pystr) (v : A) dct :
  NoDup dct.*1 -> (k, v) ∈ dct -> assoc k dct = Some v.
Proof.
  induction dct as [|[k' v'] dct IH]; cbn; intros Hnd Hin.
  { by apply elem_of_nil in Hin. }
  inversion Hnd as [|? ? Hk Hnd']; subst.
  apply elem_of_cons in Hin as [[= -> ->]|Hin].
  - by rewrite bool_decide_eq_true_2.
  - case_bool_decide as Heq; [|auto].
    subst. exfalso. apply Hk.
    by apply (list_elem_of_fmap_2 fst _ (k', v)).
Qed.

(** The canonical value is the value itself, its keys put in order. *)
Lemma canonical_same_value (o : json) :
  wf_json o = true -> same_value o (canonical o) = true.
Proof.
  induction o as [ | [] | z | r | s | lst IH | dct IH] using json_ind;
    intros Hwf; try reflexivity.
  - apply Z.eqb_refl.
  - apply String.eqb_refl.
  - by apply bool_decide_eq_true.
  - apply wf_json_array in Hwf. rewrite canonical_array. cbn.
    induction IH as [|x lst Hx _ IHlst]; [done|].
    inversion Hwf; subst. cbn. apply andb_true_iff. auto.
  - pose proof Hwf as [Hnd Hall]%wf_json_object.
    rewrite canonical_object. cbn. apply andb_true_iff. split.
    + apply Nat.eqb_eq.
      by rewrite (Permutation_length (sorted_items_perm _)), length_fmap.
    + apply forallb_forall. intros [k v] Hin%list_elem_of_In.
      rewrite (elem_assoc k (canonical v)).
      * rewrite Forall_forall in IH, Hall.
        apply (IH (k, v) Hin). by apply (Hall (k, v)).
      * by rewrite sorted_items_perm, on_value_keys.
      * rewrite sorted_items_perm.
        by apply (list_elem_of_fmap_2 (on_value canonical) _ (k, v)).
Qed.

(** *** Layout *)

Lemma append_String (c : ascii) (a b : string) :
  String c a +:+ b = String c (a +:+ b).
Proof. reflexivity. Qed.

Lemma append_empty (b : string) : "" +:+ b = b.
Proof. reflexivity. Qed.

Lemma append_assoc (a b c : string) : (a +:+ b) +:+ c = a +:+ b +:+ c.
Proof.
  induction a as [|x a IH]; [done|]. by rewrite !append_String, IH.
Qed.

Lemma scan_app n st (a b : string) :
  scan n st (a +:+ b)
  = match scan n st a with Some st' => scan n st' b | None => None end.
Proof.
  revert st. induction a as [|c a IH]; intros st; [done|].
  rewrite append_String. cbn. destruct (scan_step n st c); [apply IH|done].
Qed.

Lemma scan_spaces n depth k m :
  scan n (depth, LineStart k) (spaces m) = Some (depth, LineStart (k + m)).
Proof.
  revert k. unfold spaces.
  induction m as [|m IH]; intros k; cbn; [by rewrite Nat.add_0_r|].
  rewrite IH. do 3 f_equal. lia.
Qed.

Lemma scan_spaces_close n depth k m :
  scan n (depth, CloseLine k) (spaces m) = Some (depth, CloseLine (k + m)).
Proof.
  revert k. unfold spaces.
  induction m as [|m IH]; intros k; cbn; [by rewrite Nat.add_0_r|].
  rewrite IH. do 3 f_equal. lia.
Qed.

(** the line break after an opening bracket or a comma starts the line of
    an element; the one after an element starts the line of the closing
    bracket *)
Lemma scan_newline_open n depth level :
  scan n (depth, AfterOpen) (newline_indent (Some n) level)
  = Some (depth, LineStart (n * level)).
Proof. cbn. by rewrite scan_spaces. Qed.

Lemma scan_newline_comma n depth level :
  scan n (depth, AfterComma) (newline_indent (Some n) level)
  = Some (depth, LineStart (n * level)).
Proof. cbn. by rewrite scan_spaces. Qed.

Lemma scan_newline_close n depth level :
  scan n (depth, Body) (newline_indent (Some n) level)
  = Some (depth, CloseLine (n * level)).
Proof. cbn. by rewrite scan_spaces_close. Qed.

Lemma scan_step_inert n depth c :
  inert c = true -> scan_step n (depth, Body) c = Some (depth, Body).
Proof.
  unfold inert. cbn.
  destruct (Ascii.eqb c LF), (Ascii.eqb c DQUOTE), (is_open c), (is_close c),
    (Ascii.eqb c ","); done.
Qed.

Lemma scan_inert n depth (s : string) :
  forallb inert (list_ascii_of_string s) = true ->
  scan n (depth, Body) s = Some (depth, Body).
Proof.
  induction s as [|c s IH]; cbn; [done|].
  intros [Hc Hs]%andb_true_iff.
  pose proof (scan_step_inert n depth c Hc) as Hstep. cbn in Hstep.
  rewrite Hstep. auto.
Qed.

(** the first character of a line decides nothing that the body of the
    line would not decide, once the indentation is right *)
Lemma scan_at_line_start n depth (text : string) :
  opens_line text = true ->
  scan n (depth, LineStart (n * depth)) text = scan n (depth, Body) text.
Proof.
  destruct text as [|c text]; [done|]. cbn. rewrite Nat.eqb_refl.
  destruct (Ascii.eqb c SPACE), (Ascii.eqb c LF), (is_close c),
    (Ascii.eqb c ","), (Ascii.eqb c DQUOTE), (is_open c); cbn; done.
Qed.

Lemma atom_opens_line (s : string) :
  s <> "" -> forallb atom_char (list_ascii_of_string s) = true ->
  opens_line s = true.
Proof.
  destruct s as [|c s]; [done|]. intros _. cbn.
  intros [Hc _]%andb_true_iff. unfold atom_char, inert in Hc.
  destruct (Ascii.eqb c SPACE), (Ascii.eqb c LF), (is_close c),
    (Ascii.eqb c ","), (Ascii.eqb c DQUOTE), (is_open c); done.
Qed.

Lemma atom_inert (s : string) :
  forallb atom_char (list_ascii_of_string s) = true ->
  forallb inert (list_ascii_of_string s) = true.
Proof.
  induction s as [|c s IH]; cbn; [done|].
  intros [[Hc _]%andb_true_iff Hs]%andb_true_iff. by rewrite Hc, IH.
Qed.

(** the text of an integer *)
Lemma uint_atom (d : Decimal.uint) :
  forallb atom_char (list_ascii_of_string (NilEmpty.string_of_uint d)) = true.
Proof. induction d; cbn; auto. Qed.

Lemma intstr_atom (z : Z) :
  intstr z <> "" /\ forallb atom_char (list_ascii_of_string (intstr z)) = true.
Proof.
  unfold intstr. destruct (Z.to_int z) as [d|d]; cbn.
  - destruct d; cbn; (split; [done|]); try done; apply uint_atom.
  - split; [done|]. destruct d; cbn; try done; apply uint_atom.
Qed.

(** the text of a float *)
Lemma float_char_atom (c : ascii) : float_char c = true -> atom_char c = true.
Proof.
  destruct c as [[] [] [] [] [] [] [] []]; cbn; intros H;
    first [reflexivity | discriminate H].
Qed.

Lemma float_text_chars (r : string) :
  float_text r = true ->
  r <> "" /\ forallb float_char (list_ascii_of_string r) = true
  /\ forallb int_char (list_ascii_of_string r) = false.
Proof.
  unfold float_text.
  intros [[Hfirst Hall]%andb_true_iff Hint%negb_true_iff]%andb_true_iff.
  repeat split; try done. by intros ->.
Qed.

Lemma float_text_atom (r : string) :
  float_text r = true ->
  r <> "" /\ forallb atom_char (list_ascii_of_string r) = true.
Proof.
  intros (Hne & Hall & _)%float_text_chars. split; [done|].
  rewrite forallb_forall in *. intros c Hc. apply float_char_atom. auto.
Qed.

(** a property of every code point below 256 is a property of every
    character *)
Lemma below_256 (P : N -> Prop) :
  (forall a : ascii, P (N_of_ascii a)) -> forall c, (c < 256)%N -> P c.
Proof.
  intros H c Hc. rewrite <- (N_ascii_embedding c Hc). apply H.
Qed.

(** which branch of [escape_char] a code point from 256 on takes *)
Lemma escape_char_large (c : N) :
  (256 <= c)%N ->
  escape_char c =
    if (c <? 65536)%N then u_escape c
    else u_escape (N.lor 55296 (N.land (N.shiftr (c - 65536) 10) 1023))
         +:+ u_escape (N.lor 56320 (N.land (c - 65536) 1023)).
Proof.
  intros Hc. unfold escape_char.
  repeat match goal with
         | |- context [(c =? ?k)%N] =>
             destruct (N.eqb_spec c k); [lia|]
         end.
  destruct (N.ltb_spec c 32); [lia|].
  destruct (N.ltb_spec 126 c); [|lia]. reflexivity.
Qed.

(** the text of a string: one token, whatever the string holds *)
Lemma scan_hex_digit n depth (k : N) (text : string) :
  scan n (depth, InString) (String (hex_digit k) text)
  = scan n (depth, InString) text.
Proof.
  unfold hex_digit. generalize (N.to_nat k). intros m.
  do 16 (destruct m as [|m]; [reflexivity|]). destruct m; reflexivity.
Qed.

Lemma scan_u_escape n depth (x : N) :
  scan n (depth, InString) (u_escape x) = Some (depth, InString).
Proof.
  unfold u_escape, hex4.
  change (scan n (depth, InString) (String BACKSLASH (String "u" ?s)))
    with (scan n (depth, InString) s).
  by rewrite !scan_hex_digit.
Qed.

Lemma scan_escape_char n depth (c : N) :
  scan n (depth, InString) (escape_char c) = Some (depth, InString).
Proof.
  destruct (N.lt_ge_cases c 256) as [Hc|Hc].
  - revert c Hc. apply below_256.
    intros a. destruct a as [[] [] [] [] [] [] [] []]; reflexivity.
  - rewrite escape_char_large by done. destruct (c <? 65536)%N.
    + apply scan_u_escape.
    + by rewrite scan_app, !scan_u_escape.
Qed.

Lemma scan_escape n depth (s : pystr) :
  scan n (depth, InString) (escape s) = Some (depth, InString).
Proof.
  induction s as [|c s IH]; cbn; [done|].
  by rewrite scan_app, scan_escape_char.
Qed.

Lemma scan_string n depth (s : pystr) :
  scan n (depth, Body) (encode_basestring_ascii s) = Some (depth, Body).
Proof.
  unfold encode_basestring_ascii. cbn. by rewrite scan_app, scan_escape.
Qed.

Lemma string_opens_line (s : pystr) :
  opens_line (encode_basestring_ascii s) = true.
Proof. reflexivity. Qed.
(** the elements of a container, each on a line of its own *)
Lemma scan_chunks n level (chunks : list string) :
  chunks <> [] ->
  Forall (fun chunk =>
            scan n (S level, LineStart (n * S level)) chunk
            = Some (S level, Body)) chunks ->
  scan n (S level, LineStart (n * S level))
    (String.concat (item_separator (Some n) +:+ newline_indent (Some n) (S level))
       chunks)
  = Some (S level, Body).
Proof.
  intros Hne Hall. induction Hall as [|x chunks Hx Hall IH]; [done|].
  destruct chunks as [|y chunks]; [exact Hx|].
  change (String.concat ?sep (x :: y :: chunks))
    with (x +:+ sep +:+ String.concat sep (y :: chunks)).
  rewrite scan_app, Hx, scan_app.
  change (item_separator (Some n) +:+ newline_indent (Some n) (S level))
    with (String "," (newline_indent (Some n) (S level))).
  change (scan n (S level, Body) (String "," ?s))
    with (scan n (S level, AfterComma) s).
  rewrite scan_newline_comma. by apply IH.
Qed.

Lemma scan_bracketed n level (opening closing : string) (chunks : list string) :
  (opening, closing) = ("[", "]") \/ (opening, closing) = ("{", "}") ->
  Forall (fun chunk =>
            scan n (S level, LineStart (n * S level)) chunk
            = Some (S level, Body)) chunks ->
  scan n (level, Body) (bracketed (Some n) level opening closing chunks)
  = Some (level, Body)
  /\ opens_line (bracketed (Some n) level opening closing chunks) = true.
Proof.
  intros Hbr Hall. unfold bracketed.
  destruct chunks as [|x chunks].
  { destruct Hbr as [[= -> ->]|[= -> ->]];
      rewrite append_String, append_empty; cbn;
      (split; [do 2 f_equal; lia|reflexivity]). }
  set (body := String.concat _ (x :: chunks)) in *.
  assert (scan n (S level, LineStart (n * S level)) body = Some (S level, Body))
    as Hbody by by apply scan_chunks.
  assert (forall c : ascii, is_close c = true ->
            scan n (S level, AfterOpen)
              (newline_indent (Some n) (S level) +:+ body
               +:+ newline_indent (Some n) level +:+ String c "")
            = Some (level, Body)) as Hrest.
  { intros c Hc.
    rewrite scan_app, scan_newline_open, scan_app, Hbody, scan_app,
      scan_newline_close.
    cbn. rewrite Hc, Nat.sub_0_r, Nat.eqb_refl.
    destruct c as [[] [] [] [] [] [] [] []]; try discriminate Hc; reflexivity. }
  destruct Hbr as [[= -> ->]|[= -> ->]]; (split; [|reflexivity]).
  - rewrite append_String, append_empty.
    change (scan n (level, Body) (String "[" ?s))
      with (scan n (S level, AfterOpen) s).
    by apply Hrest.
  - rewrite append_String, append_empty.
    change (scan n (level, Body) (String "{" ?s))
      with (scan n (S level, AfterOpen) s).
    by apply Hrest.
Qed.

Lemma scan_member n level (k : pystr) (text : string) :
  scan n (S level, Body) text = Some (S level, Body) ->
  scan n (S level, LineStart (n * S level)) (render_member (k, text))
  = Some (S level, Body).
Proof.
  intros Htext. unfold render_member. cbn [fst snd].
  rewrite scan_at_line_start by reflexivity.
  rewrite scan_app, scan_string. unfold key_separator.
  rewrite !append_String, append_empty. exact Htext.
Qed.

(** The text of a value, printed at depth [level] with an indent of [n],
    is a run of well-indented lines that closes every bracket it opens. *)
Lemma scan_dumps_at n sort_keys (o : json) :
  wf_json o = true ->
  forall level,
    scan n (level, Body) (dumps_at sort_keys (Some n) level o)
    = Some (level, Body)
    /\ opens_line (dumps_at sort_keys (Some n) level o) = true.
Proof.
  induction o as [ | [] | z | r | s | lst IH | dct IH] using json_ind;
    intros Hwf level; try (split; reflexivity).
  - destruct (intstr_atom z) as [Hne Hall]. cbn. split.
    + by apply scan_inert, atom_inert.
    + by apply atom_opens_line.
  - destruct (float_text_atom r Hwf) as [Hne Hall]. cbn. split.
    + by apply scan_inert, atom_inert.
    + by apply atom_opens_line.
  - split; [apply scan_string|apply string_opens_line].
  - rewrite dumps_at_array. apply scan_bracketed; [by left|].
    apply wf_json_array in Hwf. apply Forall_fmap.
    rewrite Forall_forall in IH, Hwf. apply Forall_forall. intros x Hx. cbn.
    destruct (IH x Hx (Hwf x Hx) (S level)) as [Hscan Hopen].
    by rewrite scan_at_line_start.
  - rewrite dumps_at_object. cbn zeta. apply scan_bracketed; [by right|].
    apply wf_json_object in Hwf as [_ Hwf]. apply Forall_fmap.
    set (chunks := on_value _ <$> dct).
    assert (Forall (fun kc : pystr * string =>
                      scan n (S level, Body) kc.2 = Some (S level, Body))
              chunks) as Hchunks.
    { apply Forall_fmap. rewrite Forall_forall in IH, Hwf.
      apply Forall_forall. intros [k v] Hkv. cbn.
      apply (IH (k, v) Hkv (Hwf (k, v) Hkv)). }
    assert (Forall (fun kc : pystr * string =>
                      scan n (S level, Body) kc.2 = Some (S level, Body))
              (if sort_keys then sorted_items chunks else chunks)) as Hitems.
    { destruct sort_keys; [|done]. by rewrite sorted_items_perm. }
    eapply Forall_impl; [exact Hitems|]. intros [k text] Hkc. cbn.
    by apply scan_member.
Qed.

(** Every line of the output of [dumps] with [indent=n] starts with
    exactly [n] spaces for every bracket open at that point, and every
    element of a container has a line of its own. *)
Lemma dumps_indented n sort_keys (o : json) :
  wf_json o = true -> indented_by n (dumps sort_keys (Some n) o) = true.
Proof.
  intros Hwf. destruct (scan_dumps_at n sort_keys o Hwf 0) as [Hscan Hopen].
  unfold indented_by, dumps.
  pose proof (scan_at_line_start n 0 _ Hopen) as Hstart.
  rewrite Nat.mul_0_r in Hstart. rewrite Hstart, Hscan. done.
Qed.

(** *** Reading the text back *)

Lemma length_append (a b : string) :
  String.length (a +:+ b) = (String.length a + String.length b)%nat.
Proof. induction a as [|c a IH]; [done|]. rewrite append_String. cbn. lia. Qed.

Lemma append_nil_r (a : string) : a +:+ "" = a.
Proof. induction a as [|c a IH]; [done|]. by rewrite append_String, IH. Qed.

(** white space *)
Lemma skip_ws_blank (w s : string) : blank w -> skip_ws (w +:+ s) = skip_ws s.
Proof.
  unfold blank. induction w as [|c w IH]; [done|]. cbn.
  intros [Hc Hw]%andb_true_iff. rewrite append_String. cbn. rewrite Hc. auto.
Qed.

Lemma blank_empty : blank "".
Proof. reflexivity. Qed.

Lemma blank_spaces (n : nat) : blank (spaces n).
Proof. unfold blank, spaces. induction n as [|n IH]; [done|]. exact IH. Qed.

Lemma blank_newline_indent indent level : blank (newline_indent indent level).
Proof. destruct indent as [n|]; [apply blank_spaces|done]. Qed.

Lemma blank_String (c : ascii) (w : string) :
  is_ws c = true -> blank w -> blank (String c w).
Proof. unfold blank. cbn. by intros -> ->. Qed.

Lemma is_ws_not_float (c : ascii) : is_ws c = true -> float_char c = false.
Proof.
  destruct c as [[] [] [] [] [] [] [] []]; cbn; intros H;
    first [reflexivity | discriminate H].
Qed.

Lemma delimited_blank (w s : string) :
  blank w -> delimited s -> delimited (w +:+ s).
Proof.
  unfold blank. destruct w as [|c w]; [done|]. cbn.
  intros [Hc _]%andb_true_iff _. by apply is_ws_not_float.
Qed.

(** what a value starts with *)
Lemma head_char_facts (c : ascii) :
  head_char c = true ->
  is_ws c = false /\ Ascii.eqb "]" c = false /\ Ascii.eqb "}" c = false.
Proof.
  destruct c as [[] [] [] [] [] [] [] []]; cbn; intros H;
    first [done | discriminate H].
Qed.

Lemma skip_ws_head (c : ascii) (s : string) :
  head_char c = true -> skip_ws (String c s) = String c s.
Proof. intros (Hws & _)%head_char_facts. cbn. by rewrite Hws. Qed.

(** hexadecimal digits *)
Lemma hex_value_digit (k : N) :
  (k < 16)%N -> hex_value (hex_digit k) = Some k.
Proof.
  intros Hk. destruct k as [|p]; [reflexivity|].
  do 4 (destruct p as [p|p|]; try reflexivity); lia.
Qed.

Lemma hex4_value_hex4 (n : N) :
  (n < 65536)%N ->
  hex4_value (hex_digit ((n / 4096) mod 16)) (hex_digit ((n / 256) mod 16))
    (hex_digit ((n / 16) mod 16)) (hex_digit (n mod 16)) = Some n.
Proof.
  intros Hn. unfold hex4_value.
  rewrite !hex_value_digit by (apply N.mod_upper_bound; lia). cbn.
  f_equal. zify. Z.to_euclidean_division_equations. lia.
Qed.

(** one escape of the form [\uXXXX] that is not the first half of a pair *)
Lemma read_u_single (n : N) (h1 h2 h3 h4 : ascii) (tail : string) :
  hex4_value h1 h2 h3 h4 = Some n ->
  is_high_surrogate n = false ->
  read_chars
    (String BACKSLASH (String "u" (String h1 (String h2 (String h3 (String h4 tail))))))
  = '(cs, rest) ← read_chars tail; Some (n :: cs, rest).
Proof.
  intros Hh Hn. cbn [read_chars].
  change (BACKSLASH =? DQUOTE)%char with false.
  change (BACKSLASH =? BACKSLASH)%char with true.
  change ("u" =? "u")%char with true. cbv iota.
  rewrite Hh. cbn [mbind option_bind].
  destruct tail as [|b [|u [|g1 [|g2 [|g3 [|g4 s4]]]]]]; try reflexivity.
  rewrite Hn. cbn [andb].
  destruct ((b =? BACKSLASH)%char && (u =? "u")%char);
    [destruct (hex4_value g1 g2 g3 g4)|]; reflexivity.
Qed.

(** a pair of escapes that stands for one character *)
Lemma read_u_pair (n m : N) (h1 h2 h3 h4 g1 g2 g3 g4 : ascii) (tail : string) :
  hex4_value h1 h2 h3 h4 = Some n ->
  hex4_value g1 g2 g3 g4 = Some m ->
  is_high_surrogate n = true -> is_low_surrogate m = true ->
  read_chars
    (String BACKSLASH (String "u" (String h1 (String h2 (String h3 (String h4
      (String BACKSLASH (String "u" (String g1 (String g2 (String g3 (String g4
        tail))))))))))))
  = '(cs, rest) ← read_chars tail;
    Some ((65536 + (n - 55296) * 1024 + (m - 56320))%N :: cs, rest).
Proof.
  intros Hh Hg Hn Hm. cbn [read_chars].
  change (BACKSLASH =? DQUOTE)%char with false.
  change (BACKSLASH =? BACKSLASH)%char with true.
  change ("u" =? "u")%char with true. cbv iota.
  rewrite Hh. cbn [mbind option_bind andb]. cbv iota.
  rewrite Hg, Hn, Hm. reflexivity.
Qed.

(** a character that is printed as it is *)
Lemma read_chars_plain (a : ascii) (tail : string) :
  ((N_of_ascii a =? 92) || (N_of_ascii a =? 34) || (N_of_ascii a <? 32)
   || (126 <? N_of_ascii a))%N = false ->
  read_chars (String a tail)
  = '(cs, rest) ← read_chars tail; Some (N_of_ascii a :: cs, rest).
Proof.
  destruct a as [[] [] [] [] [] [] [] []]; intros H; vm_compute in H;
    first [discriminate H | reflexivity].
Qed.

Lemma read_chars_u_escape (c : N) (tail : string) :
  (c < 65536)%N -> is_high_surrogate c = false ->
  read_chars (u_escape c +:+ tail)
  = '(cs, rest) ← read_chars tail; Some (c :: cs, rest).
Proof.
  intros Hc Hhigh. unfold u_escape, hex4. rewrite !append_String, append_empty.
  apply read_u_single; [by apply hex4_value_hex4|done].
Qed.

Lemma lor_low (a x : N) :
  N.land a 1023 = 0%N -> N.lor a (N.land x 1023) = (a + x mod 1024)%N.
Proof.
  intros Ha.
  assert (N.land a (N.land x 1023) = 0%N) as Hdisjoint.
  { by rewrite (N.land_comm x), N.land_assoc, Ha, N.land_0_l. }
  rewrite <- N.lxor_lor, <- N.add_nocarry_lxor by done.
  f_equal. apply (N.land_ones x 10).
Qed.

Lemma read_chars_pair (c : N) (tail : string) :
  (65536 <= c <= 1114111)%N ->
  read_chars
    (u_escape (N.lor 55296 (N.land (N.shiftr (c - 65536) 10) 1023))
     +:+ u_escape (N.lor 56320 (N.land (c - 65536) 1023)) +:+ tail)
  = '(cs, rest) ← read_chars tail; Some (c :: cs, rest).
Proof.
  intros Hc. rewrite !lor_low by reflexivity.
  rewrite (N.shiftr_div_pow2 _ 10). change (2 ^ 10)%N with 1024%N.
  set (n := (c - 65536)%N).
  assert (n < 1048576)%N as Hn by lia.
  assert (c = 65536 + n)%N as Hcn by lia. clearbody n.
  assert ((n / 1024) mod 1024 = n / 1024)%N as ->.
  { apply N.mod_small. apply N.Div0.div_lt_upper_bound. lia. }
  assert (n / 1024 < 1024)%N as Hq
    by (apply N.Div0.div_lt_upper_bound; lia).
  assert (n mod 1024 < 1024)%N as Hr by (apply N.mod_upper_bound; lia).
  unfold u_escape, hex4. rewrite !append_String, append_empty.
  rewrite (read_u_pair (55296 + n / 1024) (56320 + n mod 1024));
    [|apply hex4_value_hex4; lia|apply hex4_value_hex4; lia
     |unfold is_high_surrogate; apply andb_true_iff; split; apply N.leb_le; [apply N.le_add_r|lia]
     |unfold is_low_surrogate; apply andb_true_iff; split; apply N.leb_le; [apply N.le_add_r|lia]].
  assert (65536 + (55296 + n / 1024 - 55296) * 1024
          + (56320 + n mod 1024 - 56320) = c)%N as ->; [|done].
  zify. Z.to_euclidean_division_equations. lia.
Qed.

(** the reader undoes the replacement of one character *)
Lemma read_chars_escape_char (c : N) (tail : string) :
  scalar c = true ->
  read_chars (escape_char c +:+ tail)
  = '(cs, rest) ← read_chars tail; Some (c :: cs, rest).
Proof.
  intros Hc. unfold scalar in Hc. unfold escape_char.
  repeat match goal with
         | |- context [(c =? ?k)%N] =>
             destruct (N.eqb_spec c k) as [->|?]; [reflexivity|]
         end.
  destruct ((c <? 32) || (126 <? c))%N eqn:Hrange.
  - destruct (N.ltb_spec c 65536) as [Hlt|Hge].
    + apply read_chars_u_escape; [done|].
      unfold is_high_surrogate.
      apply orb_true_iff in Hc as [Hc%N.ltb_lt|[Hc%N.ltb_lt _]%andb_true_iff].
      * apply andb_false_iff. left. apply N.leb_gt. lia.
      * apply andb_false_iff. right. apply N.leb_gt. lia.
    + cbv zeta. rewrite append_assoc. apply read_chars_pair.
      apply orb_true_iff in Hc as [Hc%N.ltb_lt|[_ Hc%N.leb_le]%andb_true_iff];
        lia.
  - apply orb_false_iff in Hrange as [Hlo%N.ltb_ge Hhi%N.ltb_ge].
    rewrite append_String, append_empty.
    assert (N_of_ascii (ascii_of_N c) = c) as Hemb
      by (apply N_ascii_embedding; lia).
    rewrite read_chars_plain; rewrite Hemb; [done|].
    repeat (apply orb_false_iff; split);
      first [by apply N.eqb_neq | apply N.ltb_ge; lia].
Qed.

Lemma read_chars_escape (k : pystr) (rest : string) :
  forallb scalar k = true ->
  read_chars (escape k +:+ String DQUOTE rest) = Some (k, rest).
Proof.
  induction k as [|c k IH]; [done|]. cbn [forallb escape].
  intros [Hc Hk]%andb_true_iff.
  by rewrite append_assoc, read_chars_escape_char, IH.
Qed.

(** numbers *)
Lemma span_app (p : ascii -> bool) (a rest : string) :
  forallb p (list_ascii_of_string a) = true ->
  match rest with String c _ => p c = false | EmptyString => True end ->
  span p (a +:+ rest) = (a, rest).
Proof.
  intros Ha Hrest. induction a as [|c a IH].
  - rewrite append_empty. destruct rest as [|c rest]; [done|].
    cbn. by rewrite Hrest.
  - cbn in Ha. apply andb_true_iff in Ha as [Hc Ha].
    rewrite append_String. cbn. by rewrite Hc, IH.
Qed.

Lemma int_char_float (c : ascii) : int_char c = true -> float_char c = true.
Proof.
  destruct c as [[] [] [] [] [] [] [] []]; cbn; intros H;
    first [reflexivity | discriminate H].
Qed.

Lemma uint_int_chars (d : Decimal.uint) :
  forallb int_char (list_ascii_of_string (NilEmpty.string_of_uint d)) = true.
Proof. induction d; cbn; auto. Qed.

Lemma intstr_int_chars (z : Z) :
  forallb int_char (list_ascii_of_string (intstr z)) = true.
Proof.
  unfold intstr. destruct (Z.to_int z) as [d|d]; cbn.
  - destruct d; cbn; try done; apply uint_int_chars.
  - destruct d; cbn; try done; apply uint_int_chars.
Qed.

Lemma intstr_head (z : Z) :
  exists c s, intstr z = String c s /\ number_head c = true.
Proof.
  unfold intstr. destruct z as [|p|p]; cbn; [by eexists _, _| |by eexists _, _].
  pose proof (DecimalPos.Unsigned.to_uint_nonnil p) as Hnil.
  destruct (Pos.to_uint p); [done|by eexists _, _..].
Qed.

Lemma float_text_head (r : string) :
  float_text r = true -> exists c s, r = String c s /\ number_head c = true.
Proof.
  unfold float_text. destruct r as [|c s]; [done|].
  intros [[Hc _]%andb_true_iff _]%andb_true_iff. by eexists _, _.
Qed.

Lemma read_value_number (fuel : nat) (c : ascii) (s : string) :
  number_head c = true ->
  read_value (S fuel) (String c s) = read_number (String c s).
Proof.
  destruct c as [[] [] [] [] [] [] [] []]; cbn; intros H;
    first [discriminate H | reflexivity].
Qed.

Lemma read_number_int (z : Z) (rest : string) :
  delimited rest -> read_number (intstr z +:+ rest) = Some (JInt z, rest).
Proof.
  intros Hrest. unfold read_number. rewrite span_app.
  - rewrite intstr_int_chars. unfold intstr. rewrite NilZero.isi.
    + cbn. by rewrite DecimalZ.of_to.
    + destruct z; cbn; try done.
      intros [= H]. by apply DecimalPos.Unsigned.to_uint_nonnil in H.
    + destruct z; cbn; try done.
      intros [= H]. by apply DecimalPos.Unsigned.to_uint_nonnil in H.
  - pose proof (intstr_int_chars z) as H. rewrite forallb_forall in *.
    intros c Hc. apply int_char_float. auto.
  - exact Hrest.
Qed.

Lemma read_number_float (r rest : string) :
  float_text r = true -> delimited rest ->
  read_number (r +:+ rest) = Some (JFloat r, rest).
Proof.
  intros (_ & Hall & Hint)%float_text_chars Hrest. unfold read_number.
  rewrite span_app by done. by rewrite Hint.
Qed.

(** the character the text of a value starts with *)
Lemma number_head_char (c : ascii) : number_head c = true -> head_char c = true.
Proof. unfold head_char. by intros ->. Qed.

Lemma bracketed_head indent level (c c' : ascii) (chunks : list string) :
  exists s, bracketed indent level (String c "") (String c' "") chunks
            = String c s.
Proof. unfold bracketed. destruct chunks; by eexists. Qed.

Lemma dumps_at_head sort_keys indent level (o : json) :
  readable o = true ->
  exists c s, dumps_at sort_keys indent level o = String c s
              /\ head_char c = true.
Proof.
  destruct o as [ | [] | z | r | k | lst | dct]; intros Hr;
    try (by eexists _, _).
  - destruct (intstr_head z) as (c & s & Hs & Hc).
    exists c, s. split; [done|by apply number_head_char].
  - destruct (float_text_head r Hr) as (c & s & Hs & Hc).
    exists c, s. split; [done|by apply number_head_char].
  - rewrite dumps_at_array.
    destruct (bracketed_head indent level "[" "]"
                (dumps_at sort_keys indent (S level) <$> lst)) as [s Hs].
    by exists "["%char, s.
  - rewrite dumps_at_object. cbv zeta.
    match goal with
    | |- context [bracketed _ _ _ _ ?chunks] =>
        destruct (bracketed_head indent level "{" "}" chunks) as [s Hs]
    end.
    by exists "{"%char, s.
Qed.

(** containers *)
Lemma read_value_blank (fuel : nat) (w s : string) :
  blank w -> read_value fuel (w +:+ s) = read_value fuel s.
Proof.
  intros Hw. destruct fuel as [|fuel]; [done|].
  cbn [read_value]. by rewrite skip_ws_blank.
Qed.

Lemma read_elements_blank (fuel : nat) (w s : string) :
  blank w -> read_elements fuel (w +:+ s) = read_elements fuel s.
Proof.
  intros Hw. destruct fuel as [|fuel]; [done|].
  cbn [read_elements]. by rewrite read_value_blank.
Qed.

Lemma read_members_blank (fuel : nat) (w s : string) :
  blank w -> read_members fuel (w +:+ s) = read_members fuel s.
Proof.
  intros Hw. destruct fuel as [|fuel]; [done|].
  cbn [read_members]. by rewrite skip_ws_blank.
Qed.

Lemma read_value_array (fuel : nat) (w : string) (c : ascii) (s : string) :
  blank w -> head_char c = true ->
  read_value (S fuel) (String "[" (w +:+ String c s))
  = '(lst, rest) ← read_elements fuel (String c s); Some (JArray lst, rest).
Proof.
  intros Hw Hc. cbn [read_value].
  change (skip_ws (String "[" ?x)) with (String "[" x).
  change ("[" =? DQUOTE)%char with false.
  change ("[" =? "[")%char with true. cbv iota.
  rewrite read_elements_blank, (skip_ws_blank w), (skip_ws_head c) by done.
  apply head_char_facts in Hc as (_ & Hc & _).
  cbn [strip]. by rewrite Hc.
Qed.

Lemma read_value_object (fuel : nat) (w : string) (c : ascii) (s : string) :
  blank w -> head_char c = true ->
  read_value (S fuel) (String "{" (w +:+ String c s))
  = '(dct, rest) ← read_members fuel (String c s); Some (JObject dct, rest).
Proof.
  intros Hw Hc. cbn [read_value].
  change (skip_ws (String "{" ?x)) with (String "{" x).
  change ("{" =? DQUOTE)%char with false.
  change ("{" =? "[")%char with false.
  change ("{" =? "{")%char with true. cbv iota.
  rewrite read_members_blank, (skip_ws_blank w), (skip_ws_head c) by done.
  apply head_char_facts in Hc as (_ & _ & Hc).
  cbn [strip]. by rewrite Hc.
Qed.

(** the separator between two elements: a comma, then white space *)
Lemma separator_shape indent level :
  exists w, blank w
    /\ item_separator indent +:+ newline_indent indent level = String "," w.
Proof.
  destruct indent as [n|].
  - exists (newline_indent (Some n) level).
    split; [apply blank_newline_indent|done].
  - by exists " ".
Qed.

Lemma concat_cons (sep x : string) (chunks : list string) :
  chunks <> [] ->
  String.concat sep (x :: chunks) = x +:+ sep +:+ String.concat sep chunks.
Proof. by destruct chunks. Qed.

Lemma delimited_close (w : string) (c : ascii) (rest : string) :
  blank w -> float_char c = false -> delimited (w +:+ String c rest).
Proof. intros Hw Hc. by apply delimited_blank. Qed.

(** the elements of an array, read back one by one *)
Lemma read_elements_chunks (text : json -> string) (xs : list json) :
  xs <> [] -> Forall (reads_back text) xs ->
  forall fuel w2 w3 rest,
    blank w2 -> blank w3 ->
    (list_sum (map (fun x => S (size x)) xs) <= fuel)%nat ->
    read_elements fuel
      (String.concat (String "," w2) (text <$> xs) +:+ w3 +:+ String "]" rest)
    = Some (xs, rest).
Proof.
  intros Hne Hall. induction Hall as [|x xs Hx Hall IH]; [done|].
  intros fuel w2 w3 rest Hw2 Hw3 Hfuel.
  change (S (size x) + list_sum (map (fun x => S (size x)) xs) <= fuel)%nat
    in Hfuel.
  destruct fuel as [|fuel]; [lia|]. rewrite fmap_cons.
  destruct xs as [|y xs].
  - cbn [fmap list_fmap String.concat read_elements].
    rewrite Hx; [|lia|by apply delimited_close]. cbn [mbind option_bind].
    rewrite skip_ws_blank by done. reflexivity.
  - rewrite concat_cons by done. rewrite !append_assoc.
    cbn [read_elements].
    rewrite Hx; [|lia|done]. cbn [mbind option_bind].
    rewrite append_String.
    change (skip_ws (String "," ?s)) with (String "," s).
    change ("," =? ",")%char with true. cbv iota.
    rewrite read_elements_blank by done.
    rewrite IH; [done|done|done|done|lia].
Qed.

Lemma render_member_app (k : pystr) (t tail : string) :
  render_member (k, t) +:+ tail
  = String DQUOTE (escape k +:+ String DQUOTE (String ":" (String " " (t +:+ tail)))).
Proof.
  unfold render_member, encode_basestring_ascii, key_separator. cbn [fst snd].
  by rewrite !append_String, !append_assoc.
Qed.

Lemma read_members_member (fuel : nat) (k : pystr) (s : string) :
  forallb scalar k = true ->
  read_members (S fuel)
    (String DQUOTE (escape k +:+ String DQUOTE (String ":" (String " " s))))
  = '(v, rest) ← read_value fuel s;
    match skip_ws rest with
    | String c' rest' =>
        if Ascii.eqb c' "," then
          '(dct, rest'') ← read_members fuel rest';
          Some ((k, v) :: dct, rest'')
        else if Ascii.eqb c' "}" then Some ([(k, v)], rest')
        else None
    | EmptyString => None
    end.
Proof.
  intros Hk. cbn [read_members].
  change (skip_ws (String DQUOTE ?s)) with (String DQUOTE s).
  change (DQUOTE =? DQUOTE)%char with true. cbv iota.
  rewrite read_chars_escape by done. cbn [mbind option_bind].
  change (skip_ws (String ":" ?s)) with (String ":" s).
  change (strip ":" (String ":" ?s)) with (Some s). cbn [mbind option_bind].
  change (String " " s) with (" " +:+ s). by rewrite read_value_blank.
Qed.

(** the members of an object, read back one by one *)
Lemma read_members_chunks (text : json -> string) (dct : list (pystr * json)) :
  dct <> [] ->
  Forall (fun kv => forallb scalar kv.1 = true /\ reads_back text kv.2) dct ->
  forall fuel w2 w3 rest,
    blank w2 -> blank w3 ->
    (list_sum (map (fun kv : pystr * json => let (_, v) := kv in S (size v))
                 dct) <= fuel)%nat ->
    read_members fuel
      (String.concat (String "," w2) (render_member <$> (on_value text <$> dct))
       +:+ w3 +:+ String "}" rest)
    = Some (dct, rest).
Proof.
  intros Hne Hall. induction Hall as [|[k v] dct [Hk Hv] Hall IH]; [done|].
  intros fuel w2 w3 rest Hw2 Hw3 Hfuel.
  change (S (size v)
          + list_sum (map (fun kv : pystr * json => let (_, v) := kv in S (size v))
                        dct) <= fuel)%nat in Hfuel.
  cbn [fst snd] in Hk, Hv.
  destruct fuel as [|fuel]; [lia|]. rewrite !fmap_cons. cbn [on_value].
  destruct dct as [|y dct].
  - cbn [fmap list_fmap String.concat].
    rewrite render_member_app, read_members_member by done.
    rewrite Hv; [|lia|by apply delimited_close]. cbn [mbind option_bind].
    rewrite skip_ws_blank by done. reflexivity.
  - rewrite concat_cons by done. rewrite !append_assoc.
    rewrite render_member_app, read_members_member by done.
    rewrite Hv; [|lia|done]. cbn [mbind option_bind].
    rewrite append_String.
    change (skip_ws (String "," ?s)) with (String "," s).
    change ("," =? ",")%char with true. cbv iota.
    rewrite read_members_blank by done.
    rewrite IH; [done|done|done|done|lia].
Qed.

Lemma concat_head (sep x : string) (chunks : list string) (c : ascii)
    (s tail : string) :
  x = String c s ->
  exists s', String.concat sep (x :: chunks) +:+ tail = String c s'.
Proof.
  intros ->. destruct chunks as [|y chunks].
  - by eexists.
  - rewrite concat_cons by done. rewrite !append_String. by eexists.
Qed.

Lemma readable_array lst :
  readable (JArray lst) = true -> Forall (fun x => readable x = true) lst.
Proof.
  cbn. rewrite forallb_forall. intros H. apply Forall_forall. intros x Hx.
  apply H. by apply list_elem_of_In.
Qed.

Lemma readable_object dct :
  readable (JObject dct) = true ->
  Forall (fun kv => forallb scalar kv.1 = true /\ readable kv.2 = true) dct.
Proof.
  cbn. rewrite forallb_forall. intros H. apply Forall_forall. intros [k v] Hx.
  apply list_elem_of_In, H in Hx. by apply andb_true_iff in Hx.
Qed.

(** The reader gives back the value the encoder printed, members in the
    order they were printed in. *)
Lemma read_value_dumps_at indent (o : json) :
  readable o = true ->
  forall level, reads_back (dumps_at false indent level) o.
Proof.
  induction o as [ | [] | z | r | k | lst IH | dct IH] using json_ind;
    intros Hr level fuel rest Hfuel Hrest;
    (destruct fuel as [|fuel]; [cbn in Hfuel; lia|]);
    try reflexivity.
  - destruct (intstr_head z) as (c & s & Hs & Hc). cbn [dumps_at].
    assert (read_value (S fuel) (intstr z +:+ rest)
            = read_number (intstr z +:+ rest)) as ->.
    { rewrite Hs, append_String. by apply read_value_number. }
    by apply read_number_int.
  - destruct (float_text_head r Hr) as (c & s & Hs & Hc). cbn [dumps_at].
    assert (read_value (S fuel) (r +:+ rest) = read_number (r +:+ rest)) as ->.
    { rewrite Hs, append_String. by apply read_value_number. }
    by apply read_number_float.
  - cbn [dumps_at]. unfold encode_basestring_ascii.
    rewrite append_String, append_assoc, append_String, append_empty.
    cbn [read_value].
    change (skip_ws (String DQUOTE ?s)) with (String DQUOTE s).
    change (DQUOTE =? DQUOTE)%char with true. cbv iota.
    by rewrite read_chars_escape.
  - rewrite dumps_at_array. unfold bracketed.
    destruct lst as [|x lst]; [reflexivity|].
    rewrite fmap_cons. cbv iota.
    destruct (separator_shape indent (S level)) as (w2 & Hw2 & ->).
    rewrite <- fmap_cons. rewrite !append_assoc.
    change ("[" +:+ ?s) with (String "[" s).
    change ("]" +:+ ?s) with (String "]" s).
    apply readable_array in Hr.
    assert (Forall (reads_back (dumps_at false indent (S level))) (x :: lst))
      as Hall.
    { rewrite Forall_forall in IH, Hr. apply Forall_forall. intros y Hy.
      by apply IH, Hr. }
    destruct (dumps_at_head false indent (S level) x) as (c & s & Hs & Hc).
    { by apply Forall_inv in Hr. }
    match goal with
    | |- context [String.concat ?sep (?f <$> x :: lst) +:+ ?tail] =>
        destruct (concat_head sep (f x) (f <$> lst) c s tail Hs) as [s' Hs']
    end.
    rewrite fmap_cons, Hs'.
    rewrite read_value_array by (done || apply blank_newline_indent).
    rewrite <- Hs', <- fmap_cons.
    rewrite read_elements_chunks;
      [done|done|done|done|apply blank_newline_indent|].
    cbn [size] in Hfuel. lia.
  - rewrite dumps_at_object. cbv zeta iota. unfold bracketed.
    destruct dct as [|[k v] dct]; [reflexivity|].
    rewrite !fmap_cons. cbv iota.
    destruct (separator_shape indent (S level)) as (w2 & Hw2 & ->).
    rewrite <- !fmap_cons. rewrite !append_assoc.
    change ("{" +:+ ?s) with (String "{" s).
    change ("}" +:+ ?s) with (String "}" s).
    apply readable_object in Hr.
    assert (Forall (fun kv => forallb scalar kv.1 = true
                              /\ reads_back (dumps_at false indent (S level)) kv.2)
              ((k, v) :: dct)) as Hall.
    { rewrite Forall_forall in IH, Hr. apply Forall_forall. intros y Hy.
      destruct (Hr y Hy) as [Hscalar Hy']. split; [done|]. by apply IH. }
    match goal with
    | |- context [String.concat ?sep (render_member <$> (?f <$> (k, v) :: dct))
                  +:+ ?tail] =>
        destruct (concat_head sep (render_member (f (k, v)))
                    (render_member <$> (f <$> dct)) DQUOTE
                    (escape k +:+ String DQUOTE ""
                     +:+ key_separator +:+ dumps_at false indent (S level) v)
                    tail) as [s' Hs']
    end.
    { unfold render_member, encode_basestring_ascii. cbn [on_value fst snd].
      by rewrite append_String, append_assoc. }
    rewrite !fmap_cons, Hs'.
    rewrite read_value_object by (done || apply blank_newline_indent).
    rewrite <- Hs', <- !fmap_cons.
    rewrite read_members_chunks;
      [done|done|done|done|apply blank_newline_indent|].
    cbn [size] in Hfuel. lia.
Qed.

(** the text is at least as long as the value is large *)
Lemma concat_length_bound {A} (sep : string) (f : A -> string) (h : A -> nat)
    (xs : list A) :
  (1 <= String.length sep)%nat ->
  Forall (fun x => (h x <= S (String.length (f x)))%nat) xs ->
  (list_sum (map h xs) <= S (String.length (String.concat sep (f <$> xs))))%nat.
Proof.
  intros Hsep Hall. induction Hall as [|x xs Hx Hall IH]; [cbn; lia|].
  change (list_sum (map h (x :: xs))) with (h x + list_sum (map h xs))%nat.
  rewrite fmap_cons. destruct xs as [|y xs].
  - cbn. lia.
  - rewrite concat_cons by done. rewrite !length_append. lia.
Qed.

Lemma bracketed_length indent level (opening closing : string)
    (chunks : list string) :
  (String.length opening + String.length closing
   + match chunks with
     | [] => 0
     | _ => String.length
              (String.concat
                 (item_separator indent +:+ newline_indent indent (S level))
                 chunks)
     end
   <= String.length (bracketed indent level opening closing chunks))%nat.
Proof.
  unfold bracketed. destruct chunks; rewrite !length_append; lia.
Qed.

Lemma separator_length indent level :
  (1 <= String.length (item_separator indent +:+ newline_indent indent level))%nat.
Proof.
  destruct (separator_shape indent level) as (w & _ & ->). cbn. lia.
Qed.

Lemma size_le_length indent (o : json) :
  readable o = true ->
  forall level,
    (size o <= String.length (dumps_at false indent level o))%nat.
Proof.
  induction o as [ | b | z | r | k | lst IH | dct IH] using json_ind;
    intros Hr level;
    try (destruct (dumps_at_head false indent level _ Hr) as (c & s & -> & _);
         cbn; lia).
  - rewrite dumps_at_array.
    pose proof (bracketed_length indent level "[" "]"
                  (dumps_at false indent (S level) <$> lst)) as Hlen.
    apply readable_array in Hr.
    pose proof (concat_length_bound
                  (item_separator indent +:+ newline_indent indent (S level))
                  (dumps_at false indent (S level)) (fun x => S (size x)) lst
                  (separator_length indent (S level))) as Hsum.
    cbn [size].
    destruct lst as [|x lst]; [cbn in *; lia|].
    rewrite fmap_cons in Hlen. rewrite <- fmap_cons in Hlen.
    cbn [String.length] in Hlen.
    assert (Forall (fun x => (S (size x)
                <= S (String.length (dumps_at false indent (S level) x)))%nat)
              (x :: lst)) as Hall.
    { rewrite Forall_forall in IH, Hr. apply Forall_forall. intros y Hy.
      apply le_n_S. by apply IH, Hr. }
    specialize (Hsum Hall). lia.
  - rewrite dumps_at_object. cbv zeta iota.
    set (text := dumps_at false indent (S level)).
    pose proof (bracketed_length indent level "{" "}"
                  (render_member <$> (on_value text <$> dct))) as Hlen.
    apply readable_object in Hr.
    pose proof (concat_length_bound
                  (item_separator indent +:+ newline_indent indent (S level))
                  (fun kv => render_member (on_value text kv))
                  (fun kv : pystr * json => let (_, v) := kv in S (size v)) dct
                  (separator_length indent (S level))) as Hsum.
    change (fun kv => render_member (on_value text kv))
      with (render_member ∘ on_value text) in Hsum.
    rewrite list_fmap_compose in Hsum.
    cbn [size].
    destruct dct as [|kv dct]; [cbn in *; lia|].
    rewrite !fmap_cons in Hlen. rewrite <- !fmap_cons in Hlen.
    cbn [String.length] in Hlen.
    assert (Forall (fun kv : pystr * json =>
                      ((let (_, v) := kv in S (size v))
                       <= S (String.length (render_member (on_value text kv))))%nat)
              (kv :: dct)) as Hall.
    { rewrite Forall_forall in IH, Hr. apply Forall_forall. intros [k v] Hy.
      destruct (Hr _ Hy) as [_ Hv]. specialize (IH _ Hy Hv (S level)).
      cbn [snd] in IH. unfold render_member. cbn [on_value fst snd].
      rewrite !length_append. fold text in IH. lia. }
    specialize (Hsum Hall). lia.
Qed.

(** sorting the members keeps a value readable *)
Lemma canonical_readable (o : json) :
  wf_json o = true -> scalar_strings o = true -> readable (canonical o) = true.
Proof.
  induction o as [ | | | | | lst IH | dct IH] using json_ind;
    intros Hwf Hs; try done.
  - apply wf_json_array in Hwf. rewrite canonical_array. cbn in Hs |- *.
    rewrite forallb_forall in *. intros y Hy%list_elem_of_In.
    apply list_elem_of_fmap in Hy as (x & -> & Hx).
    rewrite Forall_forall in IH, Hwf.
    apply IH; [done|by apply Hwf|]. by apply Hs, list_elem_of_In.
  - apply wf_json_object in Hwf as [_ Hwf]. rewrite canonical_object.
    cbn in Hs |- *. rewrite forallb_forall in *.
    intros y Hy%list_elem_of_In. rewrite sorted_items_perm in Hy.
    apply list_elem_of_fmap in Hy as ([k v] & -> & Hx).
    rewrite Forall_forall in IH, Hwf. cbn [on_value].
    pose proof (Hs _ (proj1 (list_elem_of_In _ _) Hx)) as Hkv.
    apply andb_true_iff in Hkv as [Hk Hv]. apply andb_true_iff. split; [done|].
    exact (IH (k, v) Hx (Hwf (k, v) Hx) Hv).
Qed.

(** The text [dumps] prints with [sort_keys=True] holds the value it was
    given, its members sorted by key. *)
Lemma loads_dumps_sorted indent (o : json) :
  wf_json o = true -> scalar_strings o = true ->
  loads (dumps true indent o) = Some (canonical o).
Proof.
  intros Hwf Hs. unfold loads, dumps. rewrite dumps_at_canonical.
  pose proof (canonical_readable o Hwf Hs) as Hr.
  pose proof (read_value_dumps_at indent (canonical o) Hr 0
                (String.length (dumps_at false indent 0 (canonical o))) ""
                (size_le_length indent _ Hr 0) I) as Hread.
  rewrite append_nil_r in Hread. by rewrite Hread.
Qed.

End JsonFacts.

(** ** Running the script symbolically *)

#[local] Arguments config_get : simpl never.
#[local] Arguments Json.dumps : simpl never.
#[local] Arguments String.concat : simpl never.
#[local] Arguments String.append : simpl never.
#[local] Arguments path_join : simpl never.
#[local] Arguments Nat.ltb : simpl never.

Ltac unfold_monad :=
  unfold mbind, M_bind, mret, M_ret, emit, raise, sys_exit, history in *.

Ltac unfold_script :=
  unfold run, main, loaded, config_path, command, parse_config, read_config_file,
    get_option, file_scan, file_rescan, file_report, file_behaviour,
    network_traffic, search, file_download, url_scan, url_report, ip_report,
    domain_report, check_num_args, pretty_print_json, write_file, error,
    py_print, VTPrivateAPI, call_json, call_raw, args_file, args_hash_list,
    args_hash, args_output_dir, args_query, args_url, args_ip, args_domain,
    error_line, json_text in *.

Ltac exec := unfold_script; unfold_monad; cbn in *.

(** case analysis on whatever the run branches on next *)
Ltac branch :=
  match goal with
  | |- context [match ?x with _ => _ end] =>
      lazymatch x with
      | context [match _ with _ => _ end] => fail
      | _ => destruct x eqn:?
      end
  end.

Lemma config_get_error (cfg : ConfigParser) (section option : string) (e : exn) :
  config_get cfg section option = inl e ->
  e = NoSectionError section \/ e = NoOptionError option section.
Proof.
  unfold config_get. intros H.
  repeat (destruct (_ !! _) || destruct (String.eqb _ _); try discriminate);
    inversion H; auto.
Qed.

(** [check_num_args] on its own: more than 25 arguments are the usage
    error; up to 25 it returns and leaves no trace. *)
Lemma check_num_args_spec (l : list string) (t : list event) :
  check_num_args l t =
    if (25 <? length l)%nat then
      ((t ++ [EPrint stderr
                (error_line
                   ("The VT Private API only allows a maximum of 25 "
                    +:+ "arguments to be specified in a single query"))])%list,
       SysExit 1)
    else (t, Return tt).
Proof.
  exec. destruct (Nat.ltb 25 _); reflexivity.
Qed.

(** C6. Whatever command prints it, a value goes through
    [pretty_print_json], which emits one text followed by a newline.  The
    text is the same for two values that differ only in the order of their
    keys.  It is the in-order text of the canonical value, which is the
    value itself with the members of every object put in the order of
    their keys; and read back as JSON, the text holds exactly that value,
    so the keys come in increasing order in the text itself (the reader
    joins the two halves of a surrogate pair, so this part is for strings
    made of characters).  Every element and every member is on a line of
    its own that starts with exactly 4 spaces for each bracket open at that
    point, and every bracket of a container that is not empty is closed on
    a line of its own. *)
Theorem pretty_print_json_sorted_indented (json_data reordered : json)
    (output : stream) (t : list event) :
  Json.wf_json json_data = true ->
  Json.wf_json reordered = true ->
  Json.same_value json_data reordered = true ->
  pretty_print_json json_data output t
    = ((t ++ [EPrint output (json_text json_data)])%list, Return tt) /\
  pretty_print_json reordered output t = pretty_print_json json_data output t /\
  Json.dumps true (Some 4) json_data
    = Json.dumps false (Some 4) (Json.canonical json_data) /\
  Json.keys_sorted (Json.canonical json_data) = true /\
  Json.same_value json_data (Json.canonical json_data) = true /\
  Json.indented_by 4 (Json.dumps true (Some 4) json_data) = true /\
  (Json.scalar_strings json_data = true ->
   Json.loads (Json.dumps true (Some 4) json_data)
   = Some (Json.canonical json_data)).
Proof.
  intros Hwf Hwf' Hsame. repeat split.
  - unfold pretty_print_json, py_print.
    by rewrite (JsonFacts.dumps_order_independent _ json_data reordered).
  - apply JsonFacts.dumps_at_canonical.
  - by apply JsonFacts.canonical_keys_sorted.
  - by apply JsonFacts.canonical_same_value.
  - by apply JsonFacts.dumps_indented.
  - by apply JsonFacts.loads_dumps_sorted.
Qed.

(** [os.path.join] on a name that is not absolute: the directory, a
    separator unless the directory is empty or ends with one, the name. *)
Lemma path_join_relative (a b : string) :
  startswith_sep b = false ->
  path_join a b
  = a +:+ (if String.eqb a "" || endswith_sep a then "" else "/") +:+ b.
Proof.
  unfold path_join. intros ->.
  destruct (String.eqb a "" || endswith_sep a); reflexivity.
Qed.

(** [os.path.join] puts one separator between a directory that does not end
    with one and a name that does not begin with one. *)
Lemma path_join_plain (a b : string) :
  startswith_sep b = false -> a <> "" -> endswith_sep a = false ->
  path_join a b = a +:+ "/" +:+ b.
Proof.
  unfold path_join. intros -> Ha ->.
  destruct (String.eqb a "") eqn:He; [|done].
  by apply String.eqb_eq in He.
Qed.

Section ValidConfig.

Variables (w : World) (args : Namespace) (cfg : ConfigParser) (key : string).
Hypothesis Hexists : os_path_exists w (config_path w args) = true.
Hypothesis Hread : config_read w (config_path w args) = Some cfg.
Hypothesis Hkey : config_get cfg "vt" "apikey" = inr key.

Ltac load :=
  exec; rewrite Hexists; cbn; rewrite Hread; cbn; rewrite Hkey; cbn.

(** With the key loaded, a subcommand that takes a list either stops at
    [check_num_args] or joins the list, makes its call and prints the
    answer. *)
Lemma main_list_command (s : subcommand) (method : api_method)
    (sep : string) (l : list string) :
  subparser args = Some s ->
  list_command s = Some (method, sep, l) ->
  run (main w args) =
    if (25 <? length l)%nat then
      ((loaded w args key ++
        [EPrint stderr
           (error_line
              ("The VT Private API only allows a maximum of 25 arguments "
               +:+ "to be specified in a single query"))])%list,
       SysExit 1)
    else
      ((loaded w args key ++
        [ECall method (String.concat sep l);
         EPrint stdout
           (json_text (vt_json w key (loaded w args key) method (String.concat sep l)))])%list,
       Return tt).
Proof.
  intros Hs Hl.
  destruct s; try discriminate; injection Hl as <- <- <-;
    load; rewrite Hs; cbn; destruct (Nat.ltb 25 _); reflexivity.
Qed.

(** C3. When [get_file] answers with bytes, [download] writes them to the
    file, then makes exactly one [get_file_report] call for the same hash
    and prints that report: call, write, call, print, in this order. *)
Theorem download_writes_then_reports (hash_ output_dir : string)
    (content : list Byte.byte) :
  subparser args = Some (Download hash_ output_dir) ->
  os_path_isdir w output_dir = true ->
  vt_raw w key (loaded w args key) GetFile hash_ = RBytes content ->
  open_wb w (path_join output_dir hash_) = true ->
  let saved :=
    (loaded w args key ++ [ECall GetFile hash_;
                EWriteFile (path_join output_dir hash_) content])%list in
  run (main w args) =
    ((saved ++
      [ECall GetFileReport hash_;
       EPrint stdout (json_text (vt_json w key saved GetFileReport hash_))])%list,
     Return tt).
Proof.
  intros Hs Hdir Hraw Hopen. load. rewrite Hs. cbn. rewrite Hdir. cbn.
  rewrite Hraw. cbn. rewrite Hopen. cbn. reflexivity.
Qed.

(** C4. For pcap and download the shape of the answer decides what follows
    the call: a [dict] is pretty-printed and no file is written; bytes are
    written as they are to the file, as the next event of the run (when the
    file can be opened). *)
Theorem payload_shape_decides (s : subcommand) (method : api_method)
    (hash_ output_dir name : string) :
  subparser args = Some s ->
  binary_command s = Some (method, hash_, output_dir, name) ->
  os_path_isdir w output_dir = true ->
  let t := (run (main w args)).1 in
  firstn 3 t = (loaded w args key ++ [ECall method hash_])%list /\
  match vt_raw w key (loaded w args key) method hash_ with
  | RDict d =>
      t = (loaded w args key ++ [ECall method hash_;
                      EPrint stdout (json_text (JObject d))])%list
      /\ written t = []
  | RBytes content =>
      written t =
        (if open_wb w (path_join output_dir name)
         then [(path_join output_dir name, content)] else [])
      /\ nth_error t 3 =
           (if open_wb w (path_join output_dir name)
            then Some (EWriteFile (path_join output_dir name) content)
            else None)
  end.
Proof.
  intros Hs Hb Hdir.
  destruct s; try discriminate; injection Hb as <- <- <- <-;
    load; rewrite Hs; cbn; rewrite Hdir; cbn;
    destruct (vt_raw _ _ _ _ _); cbn; try destruct (open_wb _ _); cbn;
    auto.
Qed.

(** C7. [file-report abc123] with a valid configuration: exactly one
    delegated call, [get_file_report] on the string [abc123], and exactly
    one pretty-printed value on the standard output. *)
Theorem file_report_single_hash :
  subparser args = Some (FileReport ["abc123"]) ->
  let t := (run (main w args)).1 in
  calls t = [(GetFileReport, "abc123")] /\
  printed stdout t =
    [json_text (vt_json w key (loaded w args key) GetFileReport "abc123")] /\
  printed stderr t = [] /\
  run (main w args) =
    ((loaded w args key ++ [ECall GetFileReport "abc123";
                 EPrint stdout
                   (json_text (vt_json w key (loaded w args key) GetFileReport "abc123"))])%list,
     Return tt).
Proof.
  intros Hs. load. rewrite Hs. cbn. auto.
Qed.

(** C8. On a successful retrieval pcap writes the payload to
    [<output_dir>/<hash>.pcap] and download writes it to
    [<output_dir>/<hash>], with no extension, and it is the only file
    written.  The path is the one [os.path.join] builds: for a hash that
    does not start with a separator it is the directory, a separator unless
    the directory already ends with one, and the name. *)
Theorem payload_path (s : subcommand) (method : api_method)
    (hash_ output_dir name : string) (content : list Byte.byte) :
  subparser args = Some s ->
  binary_command s = Some (method, hash_, output_dir, name) ->
  os_path_isdir w output_dir = true ->
  vt_raw w key (loaded w args key) method hash_ = RBytes content ->
  open_wb w (path_join output_dir name) = true ->
  written (run (main w args)).1 = [(path_join output_dir name, content)] /\
  name = match s with Pcap _ _ => hash_ +:+ ".pcap" | _ => hash_ end /\
  (startswith_sep hash_ = false ->
   path_join output_dir name
   = output_dir
     +:+ (if String.eqb output_dir "" || endswith_sep output_dir
          then "" else "/")
     +:+ name).
Proof.
  intros Hs Hb Hdir Hraw Hopen.
  destruct s; try discriminate; injection Hb as <- <- <- <-;
    (split; [|split; [reflexivity|]]).
  1, 3: load; rewrite Hs; cbn; rewrite Hdir; cbn; rewrite Hraw; cbn;
    rewrite Hopen; cbn; reflexivity.
  - intros Hrel. apply path_join_relative.
    destruct hash; [reflexivity|exact Hrel].
  - apply path_join_relative.
Qed.

(** With a valid configuration, an output directory that is not a
    directory ends the run in the error message, before any call. *)
Lemma invalid_output_dir_message (s : subcommand) (method : api_method)
    (hash_ output_dir name : string) :
  subparser args = Some s ->
  binary_command s = Some (method, hash_, output_dir, name) ->
  os_path_isdir w output_dir = false ->
  run (main w args) =
    ((loaded w args key ++
      [EPrint stderr
         (error_line ("'" +:+ output_dir
                      +:+ "' is not a valid output directory"))])%list,
     SysExit 1).
Proof.
  intros Hs Hb Hdir.
  destruct s; try discriminate; injection Hb as <- <- <- <-;
    load; rewrite Hs; cbn; rewrite Hdir; cbn; reflexivity.
Qed.

End ValidConfig.

(** ** Properties that hold whatever the configuration *)

(** C5. For pcap and download, when the output directory is not a
    directory the run ends with exit status 1 and its trace has no
    delegated call: the network is never reached. *)
Theorem invalid_output_dir_no_call (w : World) (args : Namespace)
    (s : subcommand) (method : api_method) (hash_ output_dir name : string) :
  subparser args = Some s ->
  binary_command s = Some (method, hash_, output_dir, name) ->
  os_path_isdir w output_dir = false ->
  calls (run (main w args)).1 = [] /\ exit_status (run (main w args)).2 = 1%Z.
Proof.
  intros Hs Hb Hdir.
  destruct s; try discriminate; injection Hb as <- <- <- <-;
    exec; rewrite Hs; cbn;
    repeat (rewrite ?Hdir; branch; cbn); rewrite ?Hdir; cbn; auto.
Qed.

(** With more than 25 elements the run ends with exit status 1 and without
    a delegated call whatever the configuration is. *)
Lemma too_many_arguments_no_call (w : World) (args : Namespace)
    (s : subcommand) (method : api_method) (sep : string) (l : list string) :
  subparser args = Some s ->
  list_command s = Some (method, sep, l) ->
  (25 < length l)%nat ->
  calls (run (main w args)).1 = [] /\ exit_status (run (main w args)).2 = 1%Z.
Proof.
  intros Hs Hl Hlen. apply Nat.ltb_lt in Hlen.
  destruct s; try discriminate; injection Hl as <- <- <-;
    exec; rewrite Hs; cbn;
    repeat (rewrite ?Hlen; branch; cbn); rewrite ?Hlen; cbn; auto.
Qed.

(** C1. A subcommand that takes a list (rescan, file-report, url-scan,
    url-report) and is given more than 25 elements fails with exit status 1
    and no delegated call; once the key is loaded the failure is the usage
    error on the error stream and nothing else.  A list of 25 elements or
    fewer passes the check: it is joined, the one delegated call is made and
    its answer is printed. *)
Theorem list_argument_limit (w : World) (args : Namespace) (s : subcommand)
    (method : api_method) (sep : string) (l : list string) :
  subparser args = Some s ->
  list_command s = Some (method, sep, l) ->
  ((25 < length l)%nat ->
   calls (run (main w args)).1 = [] /\
   exit_status (run (main w args)).2 = 1%Z) /\
  (forall (cfg : ConfigParser) (key : string),
     os_path_exists w (config_path w args) = true ->
     config_read w (config_path w args) = Some cfg ->
     config_get cfg "vt" "apikey" = inr key ->
     run (main w args) =
       if (25 <? length l)%nat then
         ((loaded w args key ++
           [EPrint stderr
              (error_line
                 ("The VT Private API only allows a maximum of 25 arguments "
                  +:+ "to be specified in a single query"))])%list,
          SysExit 1)
       else
         ((loaded w args key ++
           [ECall method (String.concat sep l);
            EPrint stdout
              (json_text
                 (vt_json w key (loaded w args key) method
                    (String.concat sep l)))])%list,
          Return tt)).
Proof.
  intros Hs Hl. split.
  - intros Hlen. by apply (too_many_arguments_no_call w args s method sep l).
  - intros cfg key Hex Hrd Hget.
    by apply (main_list_command w args cfg key Hex Hrd Hget s).
Qed.

(** Whatever a run prints on the standard output went through
    [pretty_print_json]. *)
Lemma stdout_is_pretty_printed (w : World) (args : Namespace) :
  Forall (fun text => exists o, text = json_text o)
    (printed stdout (run (main w args)).1).
Proof.
  destruct args as [c [s|]]; [destruct s|]; exec;
    repeat (branch; cbn); repeat constructor; eauto.
Qed.

(** C9, as the code has it.  No run makes more than two delegated calls.
    A subcommand other than download makes at most one, and exactly one
    when the run returns normally; a run that [error] stops, on the
    configuration or on the validation of the arguments, has made none.
    Two calls are made only by download, [get_file] then [get_file_report]
    on the same hash, and only when [get_file] answered with bytes. *)
Theorem at_most_two_calls (w : World) (args : Namespace) :
  let t := (run (main w args)).1 in
  let o := (run (main w args)).2 in
  (length (calls t) <= 2)%nat /\
  (command args <> Some "download" -> (length (calls t) <= 1)%nat) /\
  (command args <> Some "download" -> command args <> None ->
   o = Return tt -> length (calls t) = 1%nat) /\
  (forall code, o = SysExit code -> calls t = []) /\
  (length (calls t) = 2%nat ->
   exists hash_ output_dir content key t1,
     subparser args = Some (Download hash_ output_dir) /\
     vt_raw w key t1 GetFile hash_ = RBytes content /\
     calls t = [(GetFile, hash_); (GetFileReport, hash_)]).
Proof.
  destruct args as [c [s|]]; [destruct s|]; exec;
    repeat (branch; cbn);
    (repeat split; intros; try lia; try congruence; try discriminate;
     eauto 10).
Qed.

(** C10. With no subcommand the configuration is loaded all the same: a
    missing file is the fatal error; with the key found the client is
    built, and then nothing is called, nothing is printed and [main]
    returns, so the exit status is 0. *)
Theorem no_subcommand (w : World) (args : Namespace) :
  subparser args = None ->
  let config_file := config_path w args in
  run (main w args) =
    if os_path_exists w config_file then
      match config_read w config_file with
      | Some cfg =>
          match config_get cfg "vt" "apikey" with
          | inr key =>
              ([EReadConfig config_file; ENewClient key], Return tt)
          | inl e => ([EReadConfig config_file], Uncaught e)
          end
      | None => ([EReadConfig config_file], Uncaught (ParsingError config_file))
      end
    else
      ([EPrint stderr
          (error_line ("Config file '" +:+ config_file +:+ "' does not exist"))],
       SysExit 1).
Proof.
  intros Hs. exec. rewrite Hs. cbn. repeat (branch; cbn); reflexivity.
Qed.

(** *** The configuration errors (C2) *)

(** A configuration file that does not exist is the fatal error the
    specification describes: one line on the error stream, prefixed
    [ERROR:] and naming the path, then exit status 1. *)
Lemma missing_config_file_is_fatal (w : World) (args : Namespace) :
  os_path_exists w (config_path w args) = false ->
  run (main w args) =
    ([EPrint stderr
        (error_line ("Config file '" +:+ config_path w args
                     +:+ "' does not exist"))],
     SysExit 1).
Proof.
  intros H. exec. rewrite H. reflexivity.
Qed.

(** A file that exists but gives no [apikey] under [vt]: [config.get]
    raises, nothing catches the exception, and the script itself prints
    nothing. *)
Lemma missing_apikey_is_uncaught (w : World) (args : Namespace)
    (cfg : ConfigParser) (e : exn) :
  os_path_exists w (config_path w args) = true ->
  config_read w (config_path w args) = Some cfg ->
  config_get cfg "vt" "apikey" = inl e ->
  run (main w args) = ([EReadConfig (config_path w args)], Uncaught e)
  /\ (e = NoSectionError "vt" \/ e = NoOptionError "apikey" "vt").
Proof.
  intros Hex Hrd Hget. split; [|by apply (config_get_error cfg)].
  exec. rewrite Hex. cbn. rewrite Hrd. cbn. rewrite Hget. reflexivity.
Qed.

(** [parse_config] never returns [None], so the test [api_key is None] of
    [main], which holds the message about the missing key, never fires. *)
Lemma parse_config_never_None (w : World) (conf_file : string)
    (t : list event) :
  (parse_config w conf_file t).2 <> Return None.
Proof.
  exec. repeat (branch; cbn); discriminate.
Qed.

(** C2, on a file whose [vt] section has no [apikey]: the run ends in the
    uncaught [NoOptionError]; no line prefixed [ERROR:] is printed and the
    path of the file is not reported. *)
Theorem keyless_config_is_uncaught :
  run (main keyless_world (demo_args (Some (FileReport ["abc123"])))) =
    ([EReadConfig "/home/user/.vtapi"], Uncaught (NoOptionError "apikey" "vt"))
  /\ printed stderr
       (run (main keyless_world (demo_args (Some (FileReport ["abc123"]))))).1
     = [].
Proof.
  split; vm_compute; reflexivity.
Qed.

(** ** The theorems at work on the sample world *)

(** the report of the sample world as it reaches the terminal *)
Example demo_report_text :
  json_text demo_report
  = String.concat (String LF "") demo_report_lines +:+ String LF "".
Proof. reflexivity. Qed.

(** an answer with keys beyond ASCII: the text is ASCII, the keys are in
    the order of their code points, and the text read back is the value *)
Example demo_names_text :
  json_text demo_names
  = String.concat (String LF "") demo_names_lines +:+ String LF "" /\
  Json.loads (Json.dumps true (Some 4) demo_names)
  = Some (Json.canonical demo_names).
Proof. split; reflexivity. Qed.

(** the scanner tells an indent of 4 from any other, and from a text that
    has no line breaks *)
Example indent_is_measured :
  Json.indented_by 4 (Json.dumps true (Some 4) demo_scan) = true /\
  Json.indented_by 2 (Json.dumps true (Some 4) demo_scan) = false /\
  Json.indented_by 7 (Json.dumps true (Some 4) demo_scan) = false /\
  Json.indented_by 4 (Json.dumps true (Some 2) demo_scan) = false /\
  Json.indented_by 4 (Json.dumps true None demo_scan) = false /\
  Json.indented_by 7 (Json.dumps true None demo_scan) = false.
Proof. repeat split; reflexivity. Qed.

(** the reader tells the order of the members in the text *)
Example order_is_read :
  Json.loads (Json.dumps false (Some 4) demo_scan) = Some demo_scan /\
  Json.loads (Json.dumps true (Some 4) demo_scan)
  = Some (Json.canonical demo_scan) /\
  Json.canonical demo_scan <> demo_scan /\
  Json.loads "null" = Some JNull.
Proof. repeat split; try reflexivity. discriminate. Qed.

(** a list of 26 hashes is refused before any call; a list of 25 goes
    through *)
Lemma list_argument_limit_witness :
  let hashes n := repeat "d41d8cd98f00b204e9800998ecf8427e" n in
  (os_path_exists demo_world
     (config_path demo_world (demo_args (Some (Rescan (hashes 26))))) = true /\
   config_read demo_world
     (config_path demo_world (demo_args (Some (Rescan (hashes 26)))))
     = Some demo_config /\
   config_get demo_config "vt" "apikey" = inr "0123abcd" /\
   list_command (Rescan (hashes 26)) = Some (RescanFile, ",", hashes 26)) /\
  run (main demo_world (demo_args (Some (Rescan (hashes 26))))) =
    ([EReadConfig "/home/user/.vtapi"; ENewClient "0123abcd";
      EPrint stderr
        (error_line
           "The VT Private API only allows a maximum of 25 arguments to be specified in a single query")],
     SysExit 1) /\
  run (main demo_world (demo_args (Some (Rescan (hashes 25))))) =
    ([EReadConfig "/home/user/.vtapi"; ENewClient "0123abcd";
      ECall RescanFile (String.concat "," (hashes 25));
      EPrint stdout (json_text demo_report)],
     Return tt) /\
  (calls (run (main keyless_world (demo_args (Some (Rescan (hashes 26)))))).1
     = [] /\
   exit_status
     (run (main keyless_world (demo_args (Some (Rescan (hashes 26)))))).2
     = 1%Z).
Proof.
  intros hashes. split; [|split; [|split]].
  - repeat split; reflexivity.
  - exact (proj2 (list_argument_limit demo_world
                    (demo_args (Some (Rescan (hashes 26))))
                    (Rescan (hashes 26)) RescanFile "," (hashes 26)
                    eq_refl eq_refl)
             demo_config "0123abcd" eq_refl eq_refl eq_refl).
  - exact (proj2 (list_argument_limit demo_world
                    (demo_args (Some (Rescan (hashes 25))))
                    (Rescan (hashes 25)) RescanFile "," (hashes 25)
                    eq_refl eq_refl)
             demo_config "0123abcd" eq_refl eq_refl eq_refl).
  - refine (proj1 (list_argument_limit keyless_world
                     (demo_args (Some (Rescan (hashes 26))))
                     (Rescan (hashes 26)) RescanFile "," (hashes 26)
                     eq_refl eq_refl) _).
    cbn. lia.
Defined.

(** a download that succeeds: the sample is saved, then its report is
    fetched and printed *)
Lemma download_writes_then_reports_witness :
  let args := demo_args (Some (Download "44d88612fea8a8f36de82e1278abb02f" "/tmp")) in
  (os_path_exists demo_world (config_path demo_world args) = true /\
   config_read demo_world (config_path demo_world args) = Some demo_config /\
   config_get demo_config "vt" "apikey" = inr "0123abcd" /\
   os_path_isdir demo_world "/tmp" = true /\
   vt_raw demo_world "0123abcd" (loaded demo_world args "0123abcd") GetFile
     "44d88612fea8a8f36de82e1278abb02f" = RBytes [Byte.x4d; Byte.x5a] /\
   open_wb demo_world (path_join "/tmp" "44d88612fea8a8f36de82e1278abb02f")
     = true) /\
  run (main demo_world args) =
    ([EReadConfig "/home/user/.vtapi"; ENewClient "0123abcd";
      ECall GetFile "44d88612fea8a8f36de82e1278abb02f";
      EWriteFile "/tmp/44d88612fea8a8f36de82e1278abb02f" [Byte.x4d; Byte.x5a];
      ECall GetFileReport "44d88612fea8a8f36de82e1278abb02f";
      EPrint stdout (json_text demo_report)],
     Return tt).
Proof.
  intros args. split.
  - repeat split; reflexivity.
  - exact (download_writes_then_reports demo_world args demo_config "0123abcd"
             eq_refl eq_refl eq_refl "44d88612fea8a8f36de82e1278abb02f" "/tmp"
             [Byte.x4d; Byte.x5a] eq_refl eq_refl eq_refl eq_refl).
Defined.

(** a capture the service does not have is reported, not saved; a sample it
    has is saved, not printed *)
Lemma payload_shape_decides_witness :
  let unknown := demo_args (Some (Pcap "unknown" "/tmp")) in
  let known := demo_args (Some (Download "44d88612fea8a8f36de82e1278abb02f" "/tmp")) in
  (os_path_exists demo_world (config_path demo_world unknown) = true /\
   config_read demo_world (config_path demo_world unknown) = Some demo_config /\
   config_get demo_config "vt" "apikey" = inr "0123abcd" /\
   binary_command (Pcap "unknown" "/tmp")
     = Some (GetNetworkTraffic, "unknown", "/tmp", "unknown.pcap") /\
   os_path_isdir demo_world "/tmp" = true) /\
  (firstn 3 (run (main demo_world unknown)).1
     = [EReadConfig "/home/user/.vtapi"; ENewClient "0123abcd";
        ECall GetNetworkTraffic "unknown"] /\
   (run (main demo_world unknown)).1
     = [EReadConfig "/home/user/.vtapi"; ENewClient "0123abcd";
        ECall GetNetworkTraffic "unknown";
        EPrint stdout (json_text (JObject [(str "response_code", JInt 0)]))] /\
   written (run (main demo_world unknown)).1 = []) /\
  (firstn 3 (run (main demo_world known)).1
     = [EReadConfig "/home/user/.vtapi"; ENewClient "0123abcd";
        ECall GetFile "44d88612fea8a8f36de82e1278abb02f"] /\
   written (run (main demo_world known)).1
     = [("/tmp/44d88612fea8a8f36de82e1278abb02f", [Byte.x4d; Byte.x5a])] /\
   nth_error (run (main demo_world known)).1 3
     = Some (EWriteFile "/tmp/44d88612fea8a8f36de82e1278abb02f"
               [Byte.x4d; Byte.x5a])).
Proof.
  intros unknown known. split; [|split].
  - repeat split; reflexivity.
  - exact (payload_shape_decides demo_world unknown demo_config "0123abcd"
             eq_refl eq_refl eq_refl (Pcap "unknown" "/tmp") GetNetworkTraffic
             "unknown" "/tmp" "unknown.pcap" eq_refl eq_refl eq_refl).
  - exact (payload_shape_decides demo_world known demo_config "0123abcd"
             eq_refl eq_refl eq_refl
             (Download "44d88612fea8a8f36de82e1278abb02f" "/tmp") GetFile
             "44d88612fea8a8f36de82e1278abb02f" "/tmp"
             "44d88612fea8a8f36de82e1278abb02f" eq_refl eq_refl eq_refl).
Defined.

(** an output directory that does not exist stops pcap before the call *)
Lemma invalid_output_dir_no_call_witness :
  let args := demo_args (Some (Pcap "44d88612fea8a8f36de82e1278abb02f" "/nowhere")) in
  (subparser args = Some (Pcap "44d88612fea8a8f36de82e1278abb02f" "/nowhere") /\
   binary_command (Pcap "44d88612fea8a8f36de82e1278abb02f" "/nowhere")
     = Some (GetNetworkTraffic, "44d88612fea8a8f36de82e1278abb02f", "/nowhere",
             "44d88612fea8a8f36de82e1278abb02f.pcap") /\
   os_path_isdir demo_world "/nowhere" = false) /\
  calls (run (main demo_world args)).1 = [] /\
  exit_status (run (main demo_world args)).2 = 1%Z.
Proof.
  intros args. split.
  - repeat split; reflexivity.
  - exact (invalid_output_dir_no_call demo_world args
             (Pcap "44d88612fea8a8f36de82e1278abb02f" "/nowhere")
             GetNetworkTraffic "44d88612fea8a8f36de82e1278abb02f" "/nowhere"
             "44d88612fea8a8f36de82e1278abb02f.pcap" eq_refl eq_refl eq_refl).
Defined.

(** the two orders of insertion give one text *)
Lemma pretty_print_json_sorted_indented_witness :
  (Json.wf_json demo_scan = true /\
   Json.wf_json demo_scan_reordered = true /\
   Json.same_value demo_scan demo_scan_reordered = true) /\
  pretty_print_json demo_scan stdout []
    = ([EPrint stdout (json_text demo_scan)], Return tt) /\
  pretty_print_json demo_scan_reordered stdout []
    = pretty_print_json demo_scan stdout [] /\
  Json.dumps true (Some 4) demo_scan
    = Json.dumps false (Some 4) (Json.canonical demo_scan) /\
  Json.keys_sorted (Json.canonical demo_scan) = true /\
  Json.same_value demo_scan (Json.canonical demo_scan) = true /\
  Json.indented_by 4 (Json.dumps true (Some 4) demo_scan) = true /\
  (Json.scalar_strings demo_scan = true ->
   Json.loads (Json.dumps true (Some 4) demo_scan)
   = Some (Json.canonical demo_scan)).
Proof.
  split.
  - repeat split; reflexivity.
  - exact (pretty_print_json_sorted_indented demo_scan demo_scan_reordered
             stdout [] eq_refl eq_refl eq_refl).
Defined.

(** [file-report abc123] *)
Lemma file_report_single_hash_witness :
  let args := demo_args (Some (FileReport ["abc123"])) in
  (os_path_exists demo_world (config_path demo_world args) = true /\
   config_read demo_world (config_path demo_world args) = Some demo_config /\
   config_get demo_config "vt" "apikey" = inr "0123abcd" /\
   subparser args = Some (FileReport ["abc123"])) /\
  calls (run (main demo_world args)).1 = [(GetFileReport, "abc123")] /\
  printed stdout (run (main demo_world args)).1 = [json_text demo_report] /\
  printed stderr (run (main demo_world args)).1 = [] /\
  run (main demo_world args) =
    ([EReadConfig "/home/user/.vtapi"; ENewClient "0123abcd";
      ECall GetFileReport "abc123"; EPrint stdout (json_text demo_report)],
     Return tt).
Proof.
  intros args. split.
  - repeat split; reflexivity.
  - exact (file_report_single_hash demo_world args demo_config "0123abcd"
             eq_refl eq_refl eq_refl eq_refl).
Defined.

(** where the capture and the sample are saved *)
Lemma payload_path_witness :
  let pcap := Pcap "44d88612fea8a8f36de82e1278abb02f" "/tmp" in
  let download := Download "44d88612fea8a8f36de82e1278abb02f" "/tmp" in
  (os_path_exists demo_world (config_path demo_world (demo_args (Some pcap)))
     = true /\
   config_read demo_world (config_path demo_world (demo_args (Some pcap)))
     = Some demo_config /\
   config_get demo_config "vt" "apikey" = inr "0123abcd" /\
   os_path_isdir demo_world "/tmp" = true /\
   open_wb demo_world
     (path_join "/tmp" "44d88612fea8a8f36de82e1278abb02f.pcap") = true) /\
  (written (run (main demo_world (demo_args (Some pcap)))).1
     = [("/tmp/44d88612fea8a8f36de82e1278abb02f.pcap", [Byte.x4d; Byte.x5a])] /\
   path_join "/tmp" "44d88612fea8a8f36de82e1278abb02f.pcap"
     = "/tmp" +:+ "/" +:+ "44d88612fea8a8f36de82e1278abb02f" +:+ ".pcap") /\
  (written (run (main demo_world (demo_args (Some download)))).1
     = [("/tmp/44d88612fea8a8f36de82e1278abb02f", [Byte.x4d; Byte.x5a])] /\
   path_join "/tmp" "44d88612fea8a8f36de82e1278abb02f"
     = "/tmp" +:+ "/" +:+ "44d88612fea8a8f36de82e1278abb02f").
Proof.
  intros pcap download.
  pose proof (payload_path demo_world (demo_args (Some pcap)) demo_config
                "0123abcd" eq_refl eq_refl eq_refl pcap GetNetworkTraffic
                "44d88612fea8a8f36de82e1278abb02f" "/tmp"
                "44d88612fea8a8f36de82e1278abb02f.pcap" [Byte.x4d; Byte.x5a]
                eq_refl eq_refl eq_refl eq_refl eq_refl)
    as (Hpcap & _ & Hpcap_path).
  pose proof (payload_path demo_world (demo_args (Some download)) demo_config
                "0123abcd" eq_refl eq_refl eq_refl download GetFile
                "44d88612fea8a8f36de82e1278abb02f" "/tmp"
                "44d88612fea8a8f36de82e1278abb02f" [Byte.x4d; Byte.x5a]
                eq_refl eq_refl eq_refl eq_refl eq_refl)
    as (Hdownload & _ & Hdownload_path).
  split; [|split].
  - repeat split; reflexivity.
  - split; [exact Hpcap|exact (Hpcap_path eq_refl)].
  - split; [exact Hdownload|exact (Hdownload_path eq_refl)].
Defined.

(** a download makes its two calls; a report makes its one *)
Lemma at_most_two_calls_witness :
  let download :=
    demo_args (Some (Download "44d88612fea8a8f36de82e1278abb02f" "/tmp")) in
  let report := demo_args (Some (FileReport ["abc123"])) in
  (length (calls (run (main demo_world download)).1) <= 2)%nat /\
  length (calls (run (main demo_world report)).1) = 1%nat.
Proof.
  intros download report. split.
  - exact (proj1 (at_most_two_calls demo_world download)).
  - refine (proj1 (proj2 (proj2 (at_most_two_calls demo_world report)))
              _ _ eq_refl); discriminate.
Defined.

(** The reading under which every run of a subcommand other than download
    makes one call fails on a rescan of 26 hashes: the run stops at the
    check of the arguments and calls nothing. *)
Lemma one_call_in_every_run_fails :
  length
    (calls (run (main demo_world
                   (demo_args
                      (Some (Rescan (repeat "d41d8cd98f00b204e9800998ecf8427e"
                                       26)))))).1) = 0%nat
  /\ ~ one_call_in_every_run.
Proof.
  split; [reflexivity|]. intros H.
  specialize (H demo_world
                (demo_args
                   (Some (Rescan (repeat "d41d8cd98f00b204e9800998ecf8427e" 26))))
                _ eq_refl).
  discriminate H. discriminate.
Qed.

(** no subcommand at all *)
Lemma no_subcommand_witness :
  subparser (demo_args None) = None /\
  run (main demo_world (demo_args None))
    = ([EReadConfig "/home/user/.vtapi"; ENewClient "0123abcd"], Return tt) /\
  exit_status (run (main demo_world (demo_args None))).2 = 0%Z /\
  run (main demo_world {| config := "/etc/vtapi"; subparser := None |})
    = ([EPrint stderr (error_line "Config file '/etc/vtapi' does not exist")],
       SysExit 1).
Proof.
  split; [reflexivity|]. split; [|split].
  - exact (no_subcommand demo_world (demo_args None) eq_refl).
  - exact (f_equal (fun r => exit_status r.2)
             (no_subcommand demo_world (demo_args None) eq_refl)).
  - exact (no_subcommand demo_world
             {| config := "/etc/vtapi"; subparser := None |} eq_refl).
Defined.

(** ** Beyond the specification: what the code shows of itself *)

Section Forwarding.

Variables (w : World) (args : Namespace) (cfg : ConfigParser) (key : string).
Hypothesis Hexists : os_path_exists w (config_path w args) = true.
Hypothesis Hread : config_read w (config_path w args) = Some cfg.
Hypothesis Hkey : config_get cfg "vt" "apikey" = inr key.

Ltac load :=
  exec; rewrite Hexists; cbn; rewrite Hread; cbn; rewrite Hkey; cbn.

(** X1. file-scan, behaviour, search, ip-report and domain-report hand
    their one argument to the client as it is, with no check of any kind:
    one call of the method of the subcommand, then the answer printed. *)
Theorem single_argument_forwarded (s : subcommand) (method : api_method)
    (arg : string) :
  subparser args = Some s ->
  single_command s = Some (method, arg) ->
  run (main w args) =
    ((loaded w args key ++
      [ECall method arg;
       EPrint stdout (json_text (vt_json w key (loaded w args key) method arg))])%list,
     Return tt).
Proof.
  intros Hs Hc.
  destruct s; try discriminate; injection Hc as <- <-;
    load; rewrite Hs; cbn; reflexivity.
Qed.

(** X5. When the file cannot be opened, pcap and download end in the
    uncaught [IOError] right after their call: nothing is written, nothing
    is printed, and download does not go on to fetch the report. *)
Theorem write_failure_stops_run (s : subcommand) (method : api_method)
    (hash_ output_dir name : string) (content : list Byte.byte) :
  subparser args = Some s ->
  binary_command s = Some (method, hash_, output_dir, name) ->
  os_path_isdir w output_dir = true ->
  vt_raw w key (loaded w args key) method hash_ = RBytes content ->
  open_wb w (path_join output_dir name) = false ->
  run (main w args) =
    ((loaded w args key ++ [ECall method hash_])%list,
     Uncaught (IOError (path_join output_dir name))).
Proof.
  intros Hs Hb Hdir Hraw Hopen.
  destruct s; try discriminate; injection Hb as <- <- <- <-;
    load; rewrite Hs; cbn; rewrite Hdir; cbn; rewrite Hraw; cbn;
    rewrite Hopen; cbn; reflexivity.
Qed.

(** X10. A hash that starts with a separator takes the file out of the
    output directory: [os.path.join] drops the directory, so the payload is
    written to the hash itself (plus [.pcap] for pcap), although the
    directory was checked. *)
Theorem absolute_hash_leaves_output_dir (s : subcommand) (method : api_method)
    (hash_ output_dir name : string) (content : list Byte.byte) :
  subparser args = Some s ->
  binary_command s = Some (method, hash_, output_dir, name) ->
  startswith_sep hash_ = true ->
  os_path_isdir w output_dir = true ->
  vt_raw w key (loaded w args key) method hash_ = RBytes content ->
  open_wb w name = true ->
  written (run (main w args)).1 = [(name, content)].
Proof.
  intros Hs Hb Habs Hdir Hraw Hopen.
  assert (path_join output_dir name = name) as Hpath.
  { unfold path_join.
    assert (startswith_sep name = true) as ->; [|reflexivity].
    destruct s; try discriminate; injection Hb as <- <- <- <-;
      [|exact Habs].
    match goal with
    | H : startswith_sep ?h = true |- _ =>
        destruct h; [discriminate H|exact H]
    end. }
  destruct s; try discriminate; injection Hb as <- <- <- <-;
    load; rewrite Hs; cbn; rewrite Hdir; cbn; rewrite Hraw; cbn;
    rewrite Hpath, Hopen; cbn; reflexivity.
Qed.

End Forwarding.

(** X2. A run writes at most one file, and only pcap and download write
    one: the file is [os.path.join] of a directory that passed the
    [isdir] check and the name of the subcommand, it holds the bytes the
    first call answered, and the key was loaded. *)
Theorem files_written (w : World) (args : Namespace) :
  let t := (run (main w args)).1 in
  (length (written t) <= 1)%nat /\
  (command args <> Some "pcap" -> command args <> Some "download" ->
   written t = []) /\
  (forall path content,
     written t = [(path, content)] ->
     exists s method hash_ output_dir name key,
       subparser args = Some s /\
       binary_command s = Some (method, hash_, output_dir, name) /\
       path = path_join output_dir name /\
       os_path_isdir w output_dir = true /\
       vt_raw w key (loaded w args key) method hash_ = RBytes content).
Proof.
  destruct args as [c [s|]]; [destruct s|]; exec; exec;
    repeat (branch; cbn);
    (split; [lia|split; [intros; congruence|]]);
    intros path content' Hw; try discriminate Hw;
    injection Hw as <- <-;
    apply negb_false_iff in Heqb0;
    eexists _, _, _, _, _, _; repeat split; eauto.
Qed.

(** X3. The script prints on the error stream through [error] only, and
    [error] ends the run.  A run ends through [sys.exit] only after such a
    print, and the exit code is then 1.  When the script has printed a line
    on the error stream the run ended through [sys.exit], the line is the
    last event of the run and the only one of its kind, and nothing was
    called, printed on the standard output or written: either the line is
    the whole trace and tells that the configuration file is missing, or
    the key was loaded and the line tells of too many arguments or of an
    invalid output directory.  The message about a missing API key is never
    printed. *)
Theorem stderr_lines (w : World) (args : Namespace) :
  let t := (run (main w args)).1 in
  let o := (run (main w args)).2 in
  (forall code, o = SysExit code ->
     code = 1%Z /\ exists message, In (EPrint stderr (error_line message)) t) /\
  (forall text, In (EPrint stderr text) t ->
     o = SysExit 1 /\
     calls t = [] /\ printed stdout t = [] /\ written t = [] /\
     text <> error_line (api_key_message (config_path w args)) /\
     exists message,
       text = error_line message /\
       ((t = [EPrint stderr text] /\
         message = config_missing_message (config_path w args)) \/
        (exists key,
           t = (loaded w args key ++ [EPrint stderr text])%list /\
           (message = too_many_arguments_message \/
            exists output_dir, message = invalid_output_dir_text output_dir)))).
Proof.
  unfold config_missing_message, too_many_arguments_message,
    invalid_output_dir_text, api_key_message, loaded.
  destruct args as [c [s|]]; [destruct s|]; exec; exec;
    repeat (branch; cbn);
    try (exfalso;
         match goal with
         | H : Nat.ltb _ _ = true |- _ => vm_compute in H; discriminate H
         end);
    (split;
     [intros code Hcode;
      first [discriminate Hcode
            |injection Hcode as <-; (split; [reflexivity|]);
             eexists; cbn; eauto 6]
     |intros text Hin; cbn in Hin;
      repeat (destruct Hin as [Hin|Hin]; try discriminate Hin);
      first [by destruct Hin
            |injection Hin as <-;
             (split; [reflexivity|]); (split; [reflexivity|]);
             (split; [reflexivity|]); (split; [reflexivity|]);
             (split; [intros H; cbv in H; discriminate H|]);
             eexists; (split; [reflexivity|]);
             first [left; split; reflexivity
                   |right; eexists; (split; [reflexivity|]); eauto]]]).
Qed.

(** X4. No delegated call without a key: if the trace of a run holds a
    call, the configuration file existed, the parser found [apikey] under
    [vt], and the run began by reading the file and building the client
    with that key. *)
Theorem calls_need_key (w : World) (args : Namespace) :
  calls (run (main w args)).1 <> [] ->
  exists cfg key,
    os_path_exists w (config_path w args) = true /\
    config_read w (config_path w args) = Some cfg /\
    config_get cfg "vt" "apikey" = inr key /\
    firstn 2 (run (main w args)).1 = loaded w args key.
Proof.
  destruct args as [c [s|]]; [destruct s|]; exec; exec;
    repeat (branch; cbn); intros Hcalls; try (by destruct Hcalls);
    eexists _, _; repeat split; eauto.
Qed.

(** X6. The configuration comes first: when the file does not exist the
    run is the error naming the expanded path and nothing else, whatever
    the subcommand and however invalid its arguments; two command lines
    with the same [--config] run alike. *)
Theorem config_checked_before_arguments (w : World) (args : Namespace) :
  os_path_exists w (config_path w args) = false ->
  run (main w args) =
    ([EPrint stderr (error_line (config_missing_message (config_path w args)))],
     SysExit 1) /\
  forall other, config other = config args ->
    run (main w other) = run (main w args).
Proof.
  intros H.
  assert (forall a, config a = config args ->
            run (main w a) =
              ([EPrint stderr
                  (error_line (config_missing_message (config_path w args)))],
               SysExit 1)) as Hrun.
  { intros a Ha. unfold config_missing_message. exec. rewrite Ha, H.
    reflexivity. }
  split; [by apply Hrun|]. intros other Hother.
  by rewrite (Hrun other Hother), (Hrun args eq_refl).
Qed.

(** X7. A run prints on the standard output at most once, and that is the
    last thing it does: [main] then returns.  A run that prints has made a
    delegated call, and what it prints is a value as [pretty_print_json]
    lays it out. *)
Theorem stdout_once_and_last (w : World) (args : Namespace) :
  let t := (run (main w args)).1 in
  let o := (run (main w args)).2 in
  (length (printed stdout t) <= 1)%nat /\
  (forall text, printed stdout t = [text] ->
     last t = Some (EPrint stdout text) /\ o = Return tt /\
     calls t <> [] /\
     exists json_data, text = json_text json_data).
Proof.
  destruct args as [c [s|]]; [destruct s|]; exec; exec;
    repeat (branch; cbn);
    (split; [lia|]); intros text Ht; try discriminate Ht;
    injection Ht as <-; (split; [reflexivity|]); (split; [reflexivity|]);
    (split; [discriminate|]); eexists; reflexivity.
Qed.

(** X11. What [parse_config] returns is the key of the file: it returns
    only when the file exists and the parser gives [apikey] under [vt], it
    returns that value, never [None], and all it leaves in the trace is the
    reading of the file. *)
Theorem parse_config_returns_the_key (w : World) (conf_file : string)
    (t : list event) (result : option string) :
  (parse_config w conf_file t).2 = Return result ->
  exists cfg key,
    result = Some key /\
    os_path_exists w conf_file = true /\
    config_read w conf_file = Some cfg /\
    config_get cfg "vt" "apikey" = inr key /\
    (parse_config w conf_file t).1 = (t ++ [EReadConfig conf_file])%list.
Proof.
  exec. repeat (branch; cbn); intros Hr; try discriminate Hr.
  injection Hr as <-. eexists _, _. repeat split; eauto.
Qed.

(** *** What reaches the terminal and the service *)

Lemma ascii_only_app (a b : string) :
  ascii_only (a +:+ b) = ascii_only a && ascii_only b.
Proof.
  unfold ascii_only. induction a as [|c a IH]; [done|].
  rewrite JsonFacts.append_String. cbn [list_ascii_of_string forallb].
  by rewrite IH, andb_assoc.
Qed.

Lemma ascii_only_spaces (n : nat) : ascii_only (Json.spaces n) = true.
Proof. unfold ascii_only, Json.spaces. induction n; cbn; auto. Qed.

Lemma ascii_only_newline_indent indent level :
  ascii_only (Json.newline_indent indent level) = true.
Proof.
  destruct indent as [n|]; [|done].
  apply (ascii_only_spaces (n * level)).
Qed.

Lemma ascii_only_uint (d : Decimal.uint) :
  ascii_only (NilEmpty.string_of_uint d) = true.
Proof. unfold ascii_only. induction d; cbn; auto. Qed.

Lemma ascii_only_intstr (z : Z) : ascii_only (Json.intstr z) = true.
Proof.
  unfold Json.intstr. destruct (Z.to_int z) as [d|d]; cbn.
  - destruct d; try done; apply ascii_only_uint.
  - destruct d; try done; apply (ascii_only_uint (_ d)).
Qed.

Lemma float_char_printable (c : ascii) :
  Json.float_char c = true -> printable c = true.
Proof.
  destruct c as [[] [] [] [] [] [] [] []]; cbn; intros H;
    first [reflexivity | discriminate H].
Qed.

Lemma ascii_only_float (r : string) :
  Json.float_text r = true -> ascii_only r = true.
Proof.
  intros (_ & Hall & _)%JsonFacts.float_text_chars. unfold ascii_only.
  rewrite forallb_forall in *. intros c Hc. apply float_char_printable. auto.
Qed.

Lemma ascii_only_hex_digit (k : N) (text : string) :
  ascii_only (String (Json.hex_digit k) text) = ascii_only text.
Proof.
  unfold Json.hex_digit. generalize (N.to_nat k). intros m.
  do 16 (destruct m as [|m]; [reflexivity|]). destruct m; reflexivity.
Qed.

Lemma ascii_only_u_escape (x : N) : ascii_only (Json.u_escape x) = true.
Proof.
  unfold Json.u_escape, Json.hex4.
  change (ascii_only (String BACKSLASH (String "u" ?s))) with (ascii_only s).
  by rewrite !ascii_only_hex_digit.
Qed.

(** whatever the code point, below 256, in the basic plane or beyond *)
Lemma ascii_only_escape_char (c : N) :
  ascii_only (Json.escape_char c) = true.
Proof.
  destruct (N.lt_ge_cases c 256) as [Hc|Hc].
  - revert c Hc. apply JsonFacts.below_256.
    intros a. destruct a as [[] [] [] [] [] [] [] []]; reflexivity.
  - rewrite JsonFacts.escape_char_large by done. destruct (c <? 65536)%N.
    + apply ascii_only_u_escape.
    + by rewrite ascii_only_app, !ascii_only_u_escape.
Qed.

Lemma ascii_only_string (s : pystr) :
  ascii_only (Json.encode_basestring_ascii s) = true.
Proof.
  unfold Json.encode_basestring_ascii.
  change (String DQUOTE ?x) with (String DQUOTE "" +:+ x).
  rewrite !ascii_only_app. cbn.
  induction s as [|c s IH]; [done|]. cbn [Json.escape].
  by rewrite ascii_only_app, ascii_only_escape_char.
Qed.

Lemma ascii_only_concat (sep : string) (chunks : list string) :
  ascii_only sep = true ->
  Forall (fun chunk => ascii_only chunk = true) chunks ->
  ascii_only (String.concat sep chunks) = true.
Proof.
  intros Hsep. induction 1 as [|x chunks Hx Hall IH]; [done|].
  destruct chunks as [|y chunks]; [done|].
  change (String.concat sep (x :: y :: chunks))
    with (x +:+ sep +:+ String.concat sep (y :: chunks)).
  by rewrite !ascii_only_app, Hx, Hsep, IH.
Qed.

Lemma ascii_only_bracketed indent level (opening closing : string)
    (chunks : list string) :
  ascii_only opening = true -> ascii_only closing = true ->
  Forall (fun chunk => ascii_only chunk = true) chunks ->
  ascii_only (Json.bracketed indent level opening closing chunks) = true.
Proof.
  intros Ho Hc Hall. unfold Json.bracketed.
  destruct chunks as [|x chunks]; [by rewrite ascii_only_app, Ho, Hc|].
  rewrite !ascii_only_app, Ho, Hc, !ascii_only_newline_indent.
  rewrite ascii_only_concat; [done| |done].
  rewrite ascii_only_app, ascii_only_newline_indent.
  by destruct indent.
Qed.

Lemma ascii_only_dumps_at sort_keys indent (o : json) :
  Json.wf_json o = true ->
  forall level, ascii_only (Json.dumps_at sort_keys indent level o) = true.
Proof.
  induction o as [ | [] | z | r | s | lst IH | dct IH] using JsonFacts.json_ind;
    intros Hwf level; try reflexivity.
  - apply ascii_only_intstr.
  - by apply ascii_only_float.
  - apply ascii_only_string.
  - rewrite JsonFacts.dumps_at_array.
    apply ascii_only_bracketed; [done..|].
    apply JsonFacts.wf_json_array in Hwf. apply Forall_fmap.
    rewrite Forall_forall in IH, Hwf. apply Forall_forall. intros x Hx.
    by apply IH; [|apply Hwf].
  - rewrite JsonFacts.dumps_at_object. cbn zeta.
    apply ascii_only_bracketed; [done..|].
    apply JsonFacts.wf_json_object in Hwf as [_ Hwf]. apply Forall_fmap.
    set (chunks := Json.on_value _ <$> dct).
    assert (Forall (fun kc : pystr * string => ascii_only kc.2 = true) chunks)
      as Hchunks.
    { apply Forall_fmap. rewrite Forall_forall in IH, Hwf.
      apply Forall_forall. intros [k v] Hkv. cbn.
      apply (IH (k, v) Hkv (Hwf (k, v) Hkv)). }
    assert (Forall (fun kc : pystr * string => ascii_only kc.2 = true)
              (if sort_keys then Json.sorted_items chunks else chunks))
      as Hitems.
    { destruct sort_keys; [|done]. by rewrite JsonFacts.sorted_items_perm. }
    eapply Forall_impl; [exact Hitems|]. intros [k text] Hkc.
    change (ascii_only text = true) in Hkc.
    change (ascii_only
              (Json.encode_basestring_ascii k +:+ Json.key_separator +:+ text)
            = true).
    by rewrite !ascii_only_app, ascii_only_string, Hkc.
Qed.

(** X8. What [pretty_print_json] prints is plain ASCII: every character of
    the text is a newline or lies between the space and the tilde, whatever
    code points the keys and the strings of the value hold, below 256, in
    the basic plane or beyond it, and the text ends with the newline of
    [print]. *)
Theorem pretty_print_json_ascii (json_data : json) (output : stream)
    (t : list event) :
  Json.wf_json json_data = true ->
  exists text,
    pretty_print_json json_data output t
      = ((t ++ [EPrint output (text +:+ String LF "")])%list, Return tt) /\
    ascii_only (text +:+ String LF "") = true /\
    text <> "".
Proof.
  intros Hwf. exists (Json.dumps true (Some 4) json_data). split; [done|].
  split.
  - rewrite ascii_only_app. unfold Json.dumps.
    by rewrite ascii_only_dumps_at.
  - destruct (JsonFacts.scan_dumps_at 4 true json_data Hwf 0) as [_ Hopen].
    unfold Json.dumps. by destruct (Json.dumps_at _ _ _ _).
Qed.

Lemma split_on_plain (c : ascii) (x : string) :
  has_char c x = false -> split_on c x = [x].
Proof.
  induction x as [|a x IH]; cbn; [done|].
  intros [Ha Hx]%orb_false_iff. by rewrite Ha, IH.
Qed.

Lemma split_on_field (c : ascii) (x rest : string) :
  has_char c x = false ->
  split_on c (x +:+ String c rest) = x :: split_on c rest.
Proof.
  induction x as [|a x IH]; intros Hx.
  - rewrite JsonFacts.append_empty. cbn. by rewrite Ascii.eqb_refl.
  - cbn in Hx. apply orb_false_iff in Hx as [Ha Hx].
    rewrite JsonFacts.append_String. cbn. by rewrite Ha, IH.
Qed.

(** joining a list, then splitting at the separator, gives the list back
    when no element holds the separator *)
Lemma split_on_concat (c : ascii) (l : list string) :
  l <> [] ->
  Forall (fun x => has_char c x = false) l ->
  split_on c (String.concat (String c "") l) = l.
Proof.
  intros Hne Hall. induction Hall as [|x l Hx Hall IH]; [done|].
  destruct l as [|y l]; [by apply split_on_plain|].
  change (String.concat ?sep (x :: y :: l))
    with (x +:+ sep +:+ String.concat sep (y :: l)).
  rewrite JsonFacts.append_String, JsonFacts.append_empty.
  rewrite split_on_field by done. f_equal. by apply IH.
Qed.

(** X9. rescan, file-report, url-scan and url-report send their list
    without loss: the one argument of the call, split at the separator of
    the subcommand, is the list of the command line, as long as there are
    at most 25 elements and none of them holds the separator. *)
Theorem list_argument_round_trip (w : World) (args : Namespace)
    (cfg : ConfigParser) (key : string) (s : subcommand)
    (method : api_method) (c : ascii) (l : list string) :
  os_path_exists w (config_path w args) = true ->
  config_read w (config_path w args) = Some cfg ->
  config_get cfg "vt" "apikey" = inr key ->
  subparser args = Some s ->
  list_command s = Some (method, String c "", l) ->
  l <> [] ->
  (length l <= 25)%nat ->
  Forall (fun x => has_char c x = false) l ->
  exists arg,
    calls (run (main w args)).1 = [(method, arg)] /\
    split_on c arg = l.
Proof.
  intros Hex Hrd Hget Hs Hl Hne Hlen Hall.
  exists (String.concat (String c "") l). split; [|by apply split_on_concat].
  rewrite (main_list_command w args cfg key Hex Hrd Hget s method _ l Hs Hl).
  assert ((25 <? length l)%nat = false) as -> by by apply Nat.ltb_ge.
  reflexivity.
Qed.

(** X12. A subcommand calls only its own methods, in its own order: the
    methods of the calls of a run are a prefix of the one method of the
    subcommand, or of [get_file], [get_file_report] for download; without a
    subcommand nothing is called. *)
Theorem calls_belong_to_subcommand (w : World) (args : Namespace) :
  match subparser args with
  | Some s => (calls (run (main w args)).1).*1 `prefix_of` command_methods s
  | None => calls (run (main w args)).1 = []
  end.
Proof.
  destruct args as [c [s|]]; [destruct s|]; exec; exec;
    repeat (branch; cbn); try reflexivity;
    first [by apply prefix_nil
          |by eexists []
          |by eexists [_]
          |by eexists [_; _]].
Qed.

(** *** The extra properties on the sample worlds *)

Lemma single_argument_forwarded_witness :
  let args := demo_args (Some (IpReport "192.0.2.1")) in
  (os_path_exists demo_world (config_path demo_world args) = true /\
   config_read demo_world (config_path demo_world args) = Some demo_config /\
   config_get demo_config "vt" "apikey" = inr "0123abcd" /\
   single_command (IpReport "192.0.2.1") = Some (GetIpReport, "192.0.2.1")) /\
  run (main demo_world args) =
    ([EReadConfig "/home/user/.vtapi"; ENewClient "0123abcd";
      ECall GetIpReport "192.0.2.1"; EPrint stdout (json_text demo_report)],
     Return tt).
Proof.
  intros args. split.
  - repeat split; reflexivity.
  - exact (single_argument_forwarded demo_world args demo_config "0123abcd"
             eq_refl eq_refl eq_refl (IpReport "192.0.2.1") GetIpReport
             "192.0.2.1" eq_refl eq_refl).
Defined.

Lemma write_failure_stops_run_witness :
  let args :=
    demo_args (Some (Download "44d88612fea8a8f36de82e1278abb02f" "/tmp")) in
  (os_path_exists readonly_world (config_path readonly_world args) = true /\
   config_read readonly_world (config_path readonly_world args)
     = Some demo_config /\
   config_get demo_config "vt" "apikey" = inr "0123abcd" /\
   os_path_isdir readonly_world "/tmp" = true /\
   open_wb readonly_world
     (path_join "/tmp" "44d88612fea8a8f36de82e1278abb02f") = false) /\
  run (main readonly_world args) =
    ([EReadConfig "/home/user/.vtapi"; ENewClient "0123abcd";
      ECall GetFile "44d88612fea8a8f36de82e1278abb02f"],
     Uncaught (IOError "/tmp/44d88612fea8a8f36de82e1278abb02f")).
Proof.
  intros args. split.
  - repeat split; reflexivity.
  - exact (write_failure_stops_run readonly_world args demo_config "0123abcd"
             eq_refl eq_refl eq_refl
             (Download "44d88612fea8a8f36de82e1278abb02f" "/tmp") GetFile
             "44d88612fea8a8f36de82e1278abb02f" "/tmp"
             "44d88612fea8a8f36de82e1278abb02f" [Byte.x4d; Byte.x5a]
             eq_refl eq_refl eq_refl eq_refl eq_refl).
Defined.

Lemma absolute_hash_leaves_output_dir_witness :
  let args := demo_args (Some (Pcap "/srv/capture" "/tmp")) in
  (os_path_exists demo_world (config_path demo_world args) = true /\
   config_read demo_world (config_path demo_world args) = Some demo_config /\
   config_get demo_config "vt" "apikey" = inr "0123abcd" /\
   startswith_sep "/srv/capture" = true /\
   os_path_isdir demo_world "/tmp" = true /\
   open_wb demo_world "/srv/capture.pcap" = true) /\
  written (run (main demo_world args)).1
    = [("/srv/capture.pcap", [Byte.x4d; Byte.x5a])].
Proof.
  intros args. split.
  - repeat split; reflexivity.
  - exact (absolute_hash_leaves_output_dir demo_world args demo_config
             "0123abcd" eq_refl eq_refl eq_refl (Pcap "/srv/capture" "/tmp")
             GetNetworkTraffic "/srv/capture" "/tmp" "/srv/capture.pcap"
             [Byte.x4d; Byte.x5a] eq_refl eq_refl eq_refl eq_refl eq_refl
             eq_refl).
Defined.

Lemma calls_need_key_witness :
  let args := demo_args (Some (Search "type:peexe")) in
  calls (run (main demo_world args)).1 <> [] /\
  exists cfg key,
    os_path_exists demo_world (config_path demo_world args) = true /\
    config_read demo_world (config_path demo_world args) = Some cfg /\
    config_get cfg "vt" "apikey" = inr key /\
    firstn 2 (run (main demo_world args)).1 = loaded demo_world args key.
Proof.
  intros args.
  assert (calls (run (main demo_world args)).1 <> []) as Hcalls
    by discriminate.
  split; [exact Hcalls|].
  exact (calls_need_key demo_world args Hcalls).
Defined.

Lemma config_checked_before_arguments_witness :
  let args :=
    {| config := "/etc/vtapi";
       subparser := Some (Pcap "44d88612fea8a8f36de82e1278abb02f" "/nowhere") |} in
  os_path_exists demo_world (config_path demo_world args) = false /\
  run (main demo_world args) =
    ([EPrint stderr (error_line "Config file '/etc/vtapi' does not exist")],
     SysExit 1) /\
  run (main demo_world {| config := "/etc/vtapi"; subparser := None |})
    = run (main demo_world args).
Proof.
  intros args. split; [reflexivity|].
  pose proof (config_checked_before_arguments demo_world args eq_refl)
    as [Hrun Hsame].
  split; [exact Hrun|].
  exact (Hsame {| config := "/etc/vtapi"; subparser := None |} eq_refl).
Defined.

Lemma parse_config_returns_the_key_witness :
  (parse_config demo_world "/home/user/.vtapi" []).2 = Return (Some "0123abcd")
  /\ exists cfg key,
       Some "0123abcd" = Some key /\
       os_path_exists demo_world "/home/user/.vtapi" = true /\
       config_read demo_world "/home/user/.vtapi" = Some cfg /\
       config_get cfg "vt" "apikey" = inr key /\
       (parse_config demo_world "/home/user/.vtapi" []).1
         = [EReadConfig "/home/user/.vtapi"].
Proof.
  split; [reflexivity|].
  exact (parse_config_returns_the_key demo_world "/home/user/.vtapi" []
           (Some "0123abcd") eq_refl).
Defined.

Lemma pretty_print_json_ascii_witness :
  Json.wf_json demo_names = true /\
  exists text,
    pretty_print_json demo_names stdout []
      = ([EPrint stdout (text +:+ String LF "")], Return tt) /\
    ascii_only (text +:+ String LF "") = true /\
    text <> "".
Proof.
  split; [reflexivity|].
  exact (pretty_print_json_ascii demo_names
           stdout [] eq_refl).
Defined.

Lemma list_argument_round_trip_witness :
  let urls := ["http://example.com/a,b"; "http://example.org/"] in
  let args := demo_args (Some (UrlScan urls)) in
  (os_path_exists demo_world (config_path demo_world args) = true /\
   config_read demo_world (config_path demo_world args) = Some demo_config /\
   config_get demo_config "vt" "apikey" = inr "0123abcd" /\
   list_command (UrlScan urls) = Some (ScanUrl, String LF "", urls) /\
   urls <> [] /\ (length urls <= 25)%nat /\
   Forall (fun x => has_char LF x = false) urls) /\
  exists arg,
    calls (run (main demo_world args)).1 = [(ScanUrl, arg)] /\
    split_on LF arg = urls.
Proof.
  intros urls args.
  assert (urls <> []) as Hne by discriminate.
  assert (length urls <= 25)%nat as Hlen by (cbn; lia).
  assert (Forall (fun x => has_char LF x = false) urls) as Hall
    by (repeat constructor).
  split.
  - repeat split; try reflexivity; assumption.
  - exact (list_argument_round_trip demo_world args demo_config "0123abcd"
             (UrlScan urls) ScanUrl LF urls eq_refl eq_refl eq_refl eq_refl
             eq_refl Hne Hlen Hall).
Defined.
